(** * Midnight Signals: timeline scheduler and audio session of [src/app/page.tsx]

    The page component keeps four pieces of React state
    ([visibleSegments], [activeSegment], [status], [elapsed]) and five refs
    ([audioContextRef], [masterGainRef], [ambientRef], [scheduleTimeoutsRef],
    [timerIntervalRef]).  Its handlers talk to two browser facilities: the
    window's timer table ([setTimeout], [setInterval], [clearTimeout],
    [clearInterval]) and the Web Audio graph.

    The embedding is shallow.  Every handler is a function on one record
    [State] holding the React state, the refs, the timer table and the audio
    graph; code that can raise runs in a state-and-exception monad in which
    the mutations made before a [throw] persist, as they do in JavaScript.

    Conventions.
    - Times are milliseconds in [Z] ([performance.now()], timer delays);
      the second-valued stop offsets of the voices (1.4, 2.5, ...) are
      decimal constants and are kept exactly, in milliseconds.
    - AudioParam automation ([setValueAtTime], the ramps) and the sample
      contents of noise buffers are floating-point data that nothing below
      reads; nodes, their connections and their start/stop life cycle are
      modelled, parameter curves are not.
    - A handler together with the continuation of its [await] is one step of
      the event loop: no click or timer is interleaved between the call of
      [startExperience] or [stopExperience] and the code after its [await].
    - The segment list is a parameter ([segments]) of the scheduler;
      [STORY_SEGMENTS] is the list compiled into the page. *)

From Stdlib Require Import ZArith Lia.
From stdpp Require Import base option list gmap strings.

(** ** Story data *)

Inductive StoryEffect := heartbeat | creak | whisper | gust | chime.

Record StorySegment := {
  id : string;
  text : string;
  duration : Z; (* milliseconds until the next segment *)
  effects : option (list StoryEffect)
}.

Definition STORY_SEGMENTS : list StorySegment := [
  {| id := "segment-1";
     text := "Lila missed the last train, the platform lights clicking in a broken rhythm that echoed across the empty tunnel.";
     duration := 7500;
     effects := Some [heartbeat] |};
  {| id := "segment-2";
     text := "In the station’s maintenance log, a single line pulsed on her phone: Midnight maintenance delayed—do not remain underground.";
     duration := 7000;
     effects := Some [whisper] |};
  {| id := "segment-3";
     text := "A gust sighed down the tracks, carrying the copper tang of rain and the faint scrape of nails against old rail ties.";
     duration := 8000;
     effects := Some [gust] |};
  {| id := "segment-4";
     text := "Over the loudspeaker, a voice she didn’t recognize repeated her name, each syllable melting into static and low pleading.";
     duration := 7500;
     effects := Some [whisper; heartbeat] |};
  {| id := "segment-5";
     text := "The arrival board flickered to 00:00—Track Thirteen—while a silhouette stepped from the tunnel, dripping shadow instead of water.";
     duration := 8000;
     effects := Some [creak] |};
  {| id := "segment-6";
     text := "When Lila backed away, the tiles beneath her boots shivered and cracked, revealing the hollow thud of bones beneath.";
     duration := 7500;
     effects := Some [heartbeat] |};
  {| id := "segment-7";
     text := "The silhouette lifted a lantern that glowed with trapped moths, each wingbeat tolling like a funeral chime.";
     duration := 7500;
     effects := Some [chime] |};
  {| id := "segment-8";
     text := "As the phantom train roared past, empty windows filled with faces she knew: all the commuters who ever vanished between stops, all mouthing the same warning—You’re already aboard.";
     duration := 8200;
     effects := Some [creak; whisper] |}
].

(** [list.reduce((sum, item) => sum + item.duration, 0)] *)
Definition sumDurations (l : list StorySegment) : Z :=
  foldl (λ sum item, (sum + duration item)%Z) 0%Z l.

Definition TOTAL_DURATION : Z := sumDurations STORY_SEGMENTS.

(** ** Exceptions and the handler monad *)

Inductive Error :=
| JsError (message : string)   (* [new Error(message)] *)
| TypeError                    (* a property read or a call on [null]/[undefined] *)
| InvalidStateError.           (* DOMException of the Web Audio API *)

Inductive Outcome (A : Type) :=
| Return (a : A)
| Throw (e : Error).
Arguments Return {A} a.
Arguments Throw {A} e.

(** A computation over a mutable store [St]: the store after a [Throw]
    keeps every mutation made before it. *)
Definition M (St A : Type) : Type := St → Outcome A * St.

Definition ret {St A} (a : A) : M St A := λ s, (Return a, s).

Definition bind {St A B} (m : M St A) (k : A → M St B) : M St B :=
  λ s, match m s with
       | (Return a, s') => k a s'
       | (Throw e, s') => (Throw e, s')
       end.

Definition throw {St A} (e : Error) : M St A := λ s, (Throw e, s).

(** [try { m } catch (error) { handler }] *)
Definition tryCatch {St A} (m : M St A) (handler : Error → M St A) : M St A :=
  λ s, match m s with
       | (Return a, s') => (Return a, s')
       | (Throw e, s') => handler e s'
       end.

Definition gets {St A} (f : St → A) : M St A := λ s, (Return (f s), s).
Definition modify {St} (f : St → St) : M St unit := λ s, (Return tt, f s).

Notation "x <- m ;; k" := (bind m (λ x, k))
  (at level 100, m at next level, right associativity, only parsing).
Notation "m ;;; k" := (bind m (λ _, k))
  (at level 100, right associativity, only parsing).

(** [list.forEach(f)]: a callback that throws ends the loop. *)
Fixpoint forEach {St A} (l : list A) (f : A → M St unit) : M St unit :=
  match l with
  | [] => ret tt
  | x :: l' => f x ;;; forEach l' f
  end.

(** [list.forEach((item, index) => ...)], indices counted from [start]. *)
Fixpoint forEachIndexed {St A} (start : nat) (l : list A) (f : A → nat → M St unit)
  : M St unit :=
  match l with
  | [] => ret tt
  | x :: l' => f x start ;;; forEachIndexed (S start) l' f
  end.

(** Run a computation on a component [get]/[set] of a larger store. *)
Definition zoom {St T A} (get : T → St) (set : St → T → T) (m : M St A) : M T A :=
  λ t, let (r, s') := m (get t) in (r, set s' t).

(** ** The Web Audio graph *)

Module WebAudio.

Inductive OscillatorType := sine | sawtooth | triangle.
Inductive BiquadFilterType := lowpass | highpass | bandpass.
Inductive AudioContextState := suspended | running | closed.

Inductive AudioNodeKind :=
| Oscillator (type : OscillatorType)
| Gain
| BiquadFilter (type : BiquadFilterType)
| BufferSource (buffer : option Z) (loop : bool). (* buffer: its length in ms *)

(** What an output can be connected to. *)
Inductive Input :=
| NodeInput (node : nat)      (* [a.connect(b)] *)
| GainParam (node : nat)      (* [a.connect(b.gain)] *)
| ContextDestination.         (* [a.connect(context.destination)] *)

(** Nodes are objects of the graph's heap, named by their index in it. *)
Record AudioNode := {
  context : nat;
  kind : AudioNodeKind;
  started : bool;           (* [start()] was called *)
  stopAfter : option Z;     (* [stop(currentTime + d)] was called, [d] in ms *)
  outputs : list Input;
  onended : option nat      (* [onended = () => gain.disconnect()] *)
}.

Record Graph := {
  strictStop : bool;  (* engine raises on [stop()] of a source already stopped *)
  contexts : list AudioContextState;
  nodes : list AudioNode
}.

Definition withNodes (f : list AudioNode → list AudioNode) (g : Graph) : Graph :=
  {| strictStop := strictStop g; contexts := contexts g; nodes := f (nodes g) |}.

Definition withContexts (f : list AudioContextState → list AudioContextState)
  (g : Graph) : Graph :=
  {| strictStop := strictStop g; contexts := f (contexts g); nodes := nodes g |}.

Definition newNode (c : nat) (k : AudioNodeKind) : AudioNode :=
  {| context := c; kind := k; started := false; stopAfter := None;
     outputs := []; onended := None |}.

Definition setKind (k : AudioNodeKind) (n : AudioNode) : AudioNode :=
  {| context := context n; kind := k; started := started n;
     stopAfter := stopAfter n; outputs := outputs n; onended := onended n |}.

Definition setStarted (n : AudioNode) : AudioNode :=
  {| context := context n; kind := kind n; started := true;
     stopAfter := stopAfter n; outputs := outputs n; onended := onended n |}.

Definition setStopAfter (d : Z) (n : AudioNode) : AudioNode :=
  {| context := context n; kind := kind n; started := started n;
     stopAfter := Some d; outputs := outputs n; onended := onended n |}.

Definition setOutputs (o : list Input) (n : AudioNode) : AudioNode :=
  {| context := context n; kind := kind n; started := started n;
     stopAfter := stopAfter n; outputs := o; onended := onended n |}.

Definition setOnended (h : nat) (n : AudioNode) : AudioNode :=
  {| context := context n; kind := kind n; started := started n;
     stopAfter := stopAfter n; outputs := outputs n; onended := Some h |}.

(** A source that was started and never told to stop: it sounds until
    someone stops it. *)
Definition sounding (n : AudioNode) : bool :=
  started n && (if stopAfter n is Some _ then false else true).

Definition createNode (c : nat) (k : AudioNodeKind) : M Graph nat :=
  λ g, (Return (length (nodes g)), withNodes (λ ns, ns ++ [newNode c k]) g).

Definition update (n : nat) (f : AudioNode → AudioNode) : M Graph unit :=
  modify (withNodes (alter f n)).

Definition createOscillator (c : nat) : M Graph nat := createNode c (Oscillator sine).
Definition createGain (c : nat) : M Graph nat := createNode c Gain.
Definition createBiquadFilter (c : nat) : M Graph nat := createNode c (BiquadFilter lowpass).
Definition createBufferSource (c : nat) : M Graph nat := createNode c (BufferSource None false).

(** [osc.type = t], [filter.type = t] *)
Definition setType (n : nat) (k : AudioNodeKind) : M Graph unit := update n (setKind k).

(** [source.buffer = context.createBuffer(1, sampleRate * s, sampleRate)] and
    [source.loop = l] *)
Definition setBuffer (n : nat) (ms : Z) (l : bool) : M Graph unit :=
  update n (setKind (BufferSource (Some ms) l)).

Definition connect (n : nat) (target : Input) : M Graph unit :=
  update n (λ node, setOutputs (outputs node ++ [target]) node).

(** [a.connect(b)] where [b] may be [null]: a [TypeError]. *)
Definition connectNode (n : nat) (target : option nat) : M Graph unit :=
  match target with
  | Some b => connect n (NodeInput b)
  | None => throw TypeError
  end.

(** [node.disconnect()] *)
Definition disconnect (n : nat) : M Graph unit := update n (setOutputs []).

(** [source.start()].  Every call in the page is on a node created a few
    lines before, so the error of a second [start()] is not modelled. *)
Definition start (n : nat) : M Graph unit := update n setStarted.

(** [source.stop(currentTime + d)]: an [InvalidStateError] when the source
    was never started, and, on strict engines, when it was already stopped. *)
Definition stopRaises (strict : bool) (node : AudioNode) : bool :=
  negb (started node) || (strict && (if stopAfter node is Some _ then true else false)).

Definition stop (n : nat) (d : Z) : M Graph unit :=
  λ g, match nodes g !! n with
       | Some node =>
           if stopRaises (strictStop g) node then (Throw InvalidStateError, g)
           else (Return tt, withNodes (alter (setStopAfter d) n) g)
       | None => (Return tt, g)
       end.

Definition whenEnded (n : nat) (gain : nat) : M Graph unit := update n (setOnended gain).

(** [new AudioContext()] *)
Definition newAudioContext : M Graph nat :=
  λ g, (Return (length (contexts g)), withContexts (λ cs, cs ++ [running]) g).

Definition contextState (c : nat) : M Graph (option AudioContextState) :=
  gets (λ g, contexts g !! c).

(** [await context.resume()] *)
Definition resume (c : nat) : M Graph unit :=
  λ g, match contexts g !! c with
       | Some closed => (Throw InvalidStateError, g)
       | _ => (Return tt, withContexts (<[c := running]>) g)
       end.

(** [await context.close()] *)
Definition close (c : nat) : M Graph unit :=
  λ g, match contexts g !! c with
       | Some closed => (Throw InvalidStateError, g)
       | _ => (Return tt, withContexts (<[c := closed]>) g)
       end.

(** *** The five effect voices *)

Definition playHeartbeat (context destination : nat) : M Graph unit :=
  gain <- createGain context ;;
  connect gain (NodeInput destination) ;;;
  osc <- createOscillator context ;;
  setType osc (Oscillator sine) ;;;
  connect osc (NodeInput gain) ;;;
  start osc ;;;
  stop osc 1400 ;;;
  whenEnded osc gain.

Definition playCreak (context destination : nat) : M Graph unit :=
  osc <- createOscillator context ;;
  setType osc (Oscillator sawtooth) ;;;
  gain <- createGain context ;;
  filter <- createBiquadFilter context ;;
  setType filter (BiquadFilter bandpass) ;;;
  connect osc (NodeInput filter) ;;;
  connect filter (NodeInput gain) ;;;
  connect gain (NodeInput destination) ;;;
  start osc ;;;
  stop osc 2500 ;;;
  whenEnded osc gain.

Definition playWhisper (context destination : nat) : M Graph unit :=
  source <- createBufferSource context ;;
  setBuffer source 2200 false ;;;
  filter <- createBiquadFilter context ;;
  setType filter (BiquadFilter highpass) ;;;
  gain <- createGain context ;;
  connect source (NodeInput filter) ;;;
  connect filter (NodeInput gain) ;;;
  connect gain (NodeInput destination) ;;;
  start source ;;;
  stop source 2400 ;;;
  whenEnded source gain.

Definition playGust (context destination : nat) : M Graph unit :=
  source <- createBufferSource context ;;
  setBuffer source 3000 false ;;;
  filter <- createBiquadFilter context ;;
  setType filter (BiquadFilter bandpass) ;;;
  gain <- createGain context ;;
  connect source (NodeInput filter) ;;;
  connect filter (NodeInput gain) ;;;
  connect gain (NodeInput destination) ;;;
  start source ;;;
  stop source 3200 ;;;
  whenEnded source gain.

(** [attack = 0.08 + index * 0.03], [decay = 1.8 + index * 0.25]; the tone
    stops at [attack + decay + 0.1] seconds. *)
Definition chimeStop (index : nat) : Z :=
  ((80 + Z.of_nat index * 30) + (1800 + Z.of_nat index * 250) + 100)%Z.

Definition playChime (context destination : nat) : M Graph unit :=
  forEachIndexed 0 [660; 880; 1320]%Z (λ freq index,
    osc <- createOscillator context ;;
    setType osc (Oscillator sine) ;;;
    gain <- createGain context ;;
    connect osc (NodeInput gain) ;;;
    connect gain (NodeInput destination) ;;;
    start osc ;;;
    stop osc (chimeStop index) ;;;
    whenEnded osc gain).

End WebAudio.

(** ** The window's timers *)

(** The three closures the page hands to [setTimeout] and [setInterval],
    with the variables each one captures. *)
Inductive Callback :=
| RevealCb (segment : StorySegment) (index : nat)  (* the reveal of a later segment *)
| FinishedCb                                       (* [finalTimeout] *)
| ElapsedCb (startTime : Z).                       (* the ticker of [startTimer] *)

Record Timer := {
  due : Z;               (* earliest time at which it may fire *)
  callback : Callback;
  period : option Z;     (* [Some p] for [setInterval(_, p)] *)
  owner : nat            (* which call of [startExperience] made the closure *)
}.

Record Window := {
  now : Z;                  (* [performance.now()] *)
  timers : gmap Z Timer;    (* armed timers, by handle *)
  nextHandle : Z
}.

Definition arm (cb : Callback) (delay : Z) (p : option Z) (o : nat) : M Window Z :=
  λ w, (Return (nextHandle w),
        {| now := now w;
           timers := <[nextHandle w :=
                       {| due := (now w + Z.max 0 delay)%Z; callback := cb;
                          period := p; owner := o |}]> (timers w);
           nextHandle := (nextHandle w + 1)%Z |}).

(** [window.setTimeout(cb, delay)]: a negative delay counts as 0. *)
Definition setTimeout (cb : Callback) (delay : Z) (o : nat) : M Window Z :=
  arm cb delay None o.

(** [window.setInterval(cb, p)] *)
Definition setInterval (cb : Callback) (p : Z) (o : nat) : M Window Z :=
  arm cb p (Some p) o.

(** [window.clearTimeout(handle)] and [window.clearInterval(handle)] share
    one table; an unknown handle is ignored. *)
Definition clearTimeout (handle : Z) : M Window unit :=
  modify (λ w, {| now := now w; timers := delete handle (timers w);
                  nextHandle := nextHandle w |}).

Definition clearInterval (handle : Z) : M Window unit := clearTimeout handle.

(** ** The component *)

Inductive Status := idle | playing | finished.

Record AmbientNodes := {
  oscillators : list nat;
  tremolo : option nat;
  noise : option nat
}.

(** What the runtime offers: [typeof window !== "undefined"], and
    [window.AudioContext || window.webkitAudioContext]. *)
Record Browser := {
  hasWindow : bool;
  audioConstructor : bool
}.

(** Ghost record of what the scheduler did since the visible list was last
    emptied, most recent first, each with the clock at that point. *)
Inductive Event :=
| Revealed (segment : string)          (* [setVisibleSegments] adds the segment *)
| Triggered (segment : string) (effects : option (list StoryEffect))
                                       (* [triggerEffects(segment.effects)] is called *)
| Finished.                            (* [setStatus("finished")] *)

Record State := {
  (* useState *)
  visibleSegments : list string;
  activeSegment : option string;
  status : Status;
  elapsed : Z;
  (* useRef *)
  audioContextRef : option nat;
  masterGainRef : option nat;
  ambientRef : option AmbientNodes;
  scheduleTimeoutsRef : list Z;
  timerIntervalRef : option Z;
  (* the browser *)
  browser : Browser;
  window : Window;
  audio : WebAudio.Graph;
  (* ghost *)
  run : nat;                    (* calls of [startExperience] so far *)
  trace : list (Z * Event)
}.

Definition setVisibleSegments (v : list string) (s : State) : State :=
  {| visibleSegments := v; activeSegment := activeSegment s; status := status s;
     elapsed := elapsed s; audioContextRef := audioContextRef s;
     masterGainRef := masterGainRef s; ambientRef := ambientRef s;
     scheduleTimeoutsRef := scheduleTimeoutsRef s;
     timerIntervalRef := timerIntervalRef s; browser := browser s; window := window s;
     audio := audio s; run := run s; trace := trace s |}.

Definition setActiveSegment (v : option string) (s : State) : State :=
  {| visibleSegments := visibleSegments s; activeSegment := v; status := status s;
     elapsed := elapsed s; audioContextRef := audioContextRef s;
     masterGainRef := masterGainRef s; ambientRef := ambientRef s;
     scheduleTimeoutsRef := scheduleTimeoutsRef s;
     timerIntervalRef := timerIntervalRef s; browser := browser s; window := window s;
     audio := audio s; run := run s; trace := trace s |}.

Definition setStatus (v : Status) (s : State) : State :=
  {| visibleSegments := visibleSegments s; activeSegment := activeSegment s;
     status := v; elapsed := elapsed s; audioContextRef := audioContextRef s;
     masterGainRef := masterGainRef s; ambientRef := ambientRef s;
     scheduleTimeoutsRef := scheduleTimeoutsRef s;
     timerIntervalRef := timerIntervalRef s; browser := browser s; window := window s;
     audio := audio s; run := run s; trace := trace s |}.

Definition setElapsed (v : Z) (s : State) : State :=
  {| visibleSegments := visibleSegments s; activeSegment := activeSegment s;
     status := status s; elapsed := v; audioContextRef := audioContextRef s;
     masterGainRef := masterGainRef s; ambientRef := ambientRef s;
     scheduleTimeoutsRef := scheduleTimeoutsRef s;
     timerIntervalRef := timerIntervalRef s; browser := browser s; window := window s;
     audio := audio s; run := run s; trace := trace s |}.

Definition setAudioContextRef (v : option nat) (s : State) : State :=
  {| visibleSegments := visibleSegments s; activeSegment := activeSegment s;
     status := status s; elapsed := elapsed s; audioContextRef := v;
     masterGainRef := masterGainRef s; ambientRef := ambientRef s;
     scheduleTimeoutsRef := scheduleTimeoutsRef s;
     timerIntervalRef := timerIntervalRef s; browser := browser s; window := window s;
     audio := audio s; run := run s; trace := trace s |}.

Definition setMasterGainRef (v : option nat) (s : State) : State :=
  {| visibleSegments := visibleSegments s; activeSegment := activeSegment s;
     status := status s; elapsed := elapsed s; audioContextRef := audioContextRef s;
     masterGainRef := v; ambientRef := ambientRef s;
     scheduleTimeoutsRef := scheduleTimeoutsRef s;
     timerIntervalRef := timerIntervalRef s; browser := browser s; window := window s;
     audio := audio s; run := run s; trace := trace s |}.

Definition setAmbientRef (v : option AmbientNodes) (s : State) : State :=
  {| visibleSegments := visibleSegments s; activeSegment := activeSegment s;
     status := status s; elapsed := elapsed s; audioContextRef := audioContextRef s;
     masterGainRef := masterGainRef s; ambientRef := v;
     scheduleTimeoutsRef := scheduleTimeoutsRef s;
     timerIntervalRef := timerIntervalRef s; browser := browser s; window := window s;
     audio := audio s; run := run s; trace := trace s |}.

Definition setScheduleTimeoutsRef (v : list Z) (s : State) : State :=
  {| visibleSegments := visibleSegments s; activeSegment := activeSegment s;
     status := status s; elapsed := elapsed s; audioContextRef := audioContextRef s;
     masterGainRef := masterGainRef s; ambientRef := ambientRef s;
     scheduleTimeoutsRef := v; timerIntervalRef := timerIntervalRef s;
     browser := browser s; window := window s; audio := audio s; run := run s;
     trace := trace s |}.

Definition setTimerIntervalRef (v : option Z) (s : State) : State :=
  {| visibleSegments := visibleSegments s; activeSegment := activeSegment s;
     status := status s; elapsed := elapsed s; audioContextRef := audioContextRef s;
     masterGainRef := masterGainRef s; ambientRef := ambientRef s;
     scheduleTimeoutsRef := scheduleTimeoutsRef s; timerIntervalRef := v;
     browser := browser s; window := window s; audio := audio s; run := run s;
     trace := trace s |}.

Definition setWindow (v : Window) (s : State) : State :=
  {| visibleSegments := visibleSegments s; activeSegment := activeSegment s;
     status := status s; elapsed := elapsed s; audioContextRef := audioContextRef s;
     masterGainRef := masterGainRef s; ambientRef := ambientRef s;
     scheduleTimeoutsRef := scheduleTimeoutsRef s;
     timerIntervalRef := timerIntervalRef s; browser := browser s; window := v;
     audio := audio s; run := run s; trace := trace s |}.

Definition setAudio (v : WebAudio.Graph) (s : State) : State :=
  {| visibleSegments := visibleSegments s; activeSegment := activeSegment s;
     status := status s; elapsed := elapsed s; audioContextRef := audioContextRef s;
     masterGainRef := masterGainRef s; ambientRef := ambientRef s;
     scheduleTimeoutsRef := scheduleTimeoutsRef s;
     timerIntervalRef := timerIntervalRef s; browser := browser s; window := window s;
     audio := v; run := run s; trace := trace s |}.

Definition setRun (v : nat) (s : State) : State :=
  {| visibleSegments := visibleSegments s; activeSegment := activeSegment s;
     status := status s; elapsed := elapsed s; audioContextRef := audioContextRef s;
     masterGainRef := masterGainRef s; ambientRef := ambientRef s;
     scheduleTimeoutsRef := scheduleTimeoutsRef s;
     timerIntervalRef := timerIntervalRef s; browser := browser s; window := window s;
     audio := audio s; run := v; trace := trace s |}.

Definition setTrace (v : list (Z * Event)) (s : State) : State :=
  {| visibleSegments := visibleSegments s; activeSegment := activeSegment s;
     status := status s; elapsed := elapsed s; audioContextRef := audioContextRef s;
     masterGainRef := masterGainRef s; ambientRef := ambientRef s;
     scheduleTimeoutsRef := scheduleTimeoutsRef s;
     timerIntervalRef := timerIntervalRef s; browser := browser s; window := window s;
     audio := audio s; run := run s; trace := v |}.

Definition onWindow {A} (m : M Window A) : M State A := zoom window setWindow m.
Definition onAudio {A} (m : M WebAudio.Graph A) : M State A := zoom audio setAudio m.

(** Ghost: note an event at the current clock. *)
Definition log (e : Event) : M State unit :=
  modify (λ s, setTrace ((now (window s), e) :: trace s) s).

(** [Array.from(new Set(list))]: duplicates dropped, first occurrences kept. *)
Fixpoint fromSet (l : list string) : list string :=
  match l with
  | [] => []
  | x :: l' => x :: filter (λ y, y ≠ x) (fromSet l')
  end.

Definition clearSchedule : M State unit :=
  handles <- gets scheduleTimeoutsRef ;;
  forEach handles (λ handle, onWindow (clearTimeout handle)) ;;;
  modify (setScheduleTimeoutsRef []) ;;;
  interval <- gets timerIntervalRef ;;
  match interval with
  | Some handle =>
      if (handle =? 0)%Z then ret tt   (* [if (timerIntervalRef.current)] *)
      else (onWindow (clearInterval handle) ;;;
            modify (setTimerIntervalRef None))
  | None => ret tt
  end.

Definition stopAmbient : M State unit :=
  nodes <- gets ambientRef ;;
  match nodes with
  | None => ret tt
  | Some nodes =>
      forEach (oscillators nodes) (λ osc,
        tryCatch (onAudio (WebAudio.stop osc 0))
                 (λ _, ret tt) (* ignore nodes that are already stopped *) ;;;
        onAudio (WebAudio.disconnect osc)) ;;;
      match tremolo nodes with
      | Some tremolo =>
          tryCatch (onAudio (WebAudio.stop tremolo 0)) (λ _, ret tt) ;;;
          onAudio (WebAudio.disconnect tremolo)
      | None => ret tt
      end ;;;
      match noise nodes with
      | Some noise =>
          tryCatch (onAudio (WebAudio.stop noise 0)) (λ _, ret tt) ;;;
          onAudio (WebAudio.disconnect noise)
      | None => ret tt
      end ;;;
      modify (setAmbientRef None)
  end.

Definition teardownAudio : M State unit :=
  stopAmbient ;;;
  masterGain <- gets masterGainRef ;;
  match masterGain with
  | Some masterGain =>
      onAudio (WebAudio.disconnect masterGain) ;;;
      modify (setMasterGainRef None)
  | None => ret tt
  end ;;;
  context <- gets audioContextRef ;;
  match context with
  | Some context =>
      tryCatch
        (state <- onAudio (WebAudio.contextState context) ;;
         if state is Some WebAudio.closed then ret tt
         else onAudio (WebAudio.close context))
        (λ _, ret tt) (* fail silently if context cannot close *) ;;;
      modify (setAudioContextRef None)
  | None => ret tt
  end.

(** Returns [{ context: audioContextRef.current!, master: masterGainRef.current! }];
    the master may be [null] behind its [!]. *)
Definition ensureAudioContext : M State (nat * option nat) :=
  b <- gets browser ;;
  if negb (hasWindow b)
  then throw (JsError "AudioContext unavailable on the server")
  else
    current <- gets audioContextRef ;;
    match current with
    | None =>
        if negb (audioConstructor b)
        then throw (JsError "Web Audio API is not supported in this browser.")
        else
          (context <- onAudio WebAudio.newAudioContext ;;
           masterGain <- onAudio (WebAudio.createGain context) ;;
           onAudio (WebAudio.connect masterGain WebAudio.ContextDestination) ;;;
           modify (setAudioContextRef (Some context)) ;;;
           modify (setMasterGainRef (Some masterGain)))
    | Some context =>
        state <- onAudio (WebAudio.contextState context) ;;
        if state is Some WebAudio.suspended
        then onAudio (WebAudio.resume context)
        else ret tt
    end ;;;
    context <- gets audioContextRef ;;
    master <- gets masterGainRef ;;
    match context with
    | Some context => ret (context, master)
    | None => throw TypeError
    end.

(** The graph that [beginAmbientBed] builds, statement by statement. *)
Definition buildAmbientBed (context : nat) (masterGain : option nat)
  : M WebAudio.Graph AmbientNodes :=
  bassOsc <- WebAudio.createOscillator context ;;
  WebAudio.setType bassOsc (WebAudio.Oscillator WebAudio.sawtooth) ;;;
  bassGain <- WebAudio.createGain context ;;
  WebAudio.connect bassOsc (WebAudio.NodeInput bassGain) ;;;
  WebAudio.connectNode bassGain masterGain ;;;
  WebAudio.start bassOsc ;;;
  highOsc <- WebAudio.createOscillator context ;;
  WebAudio.setType highOsc (WebAudio.Oscillator WebAudio.triangle) ;;;
  highGain <- WebAudio.createGain context ;;
  WebAudio.connect highOsc (WebAudio.NodeInput highGain) ;;;
  WebAudio.connectNode highGain masterGain ;;;
  WebAudio.start highOsc ;;;
  tremolo <- WebAudio.createOscillator context ;;
  WebAudio.setType tremolo (WebAudio.Oscillator WebAudio.sine) ;;;
  tremoloDepth <- WebAudio.createGain context ;;
  WebAudio.connect tremolo (WebAudio.NodeInput tremoloDepth) ;;;
  WebAudio.connect tremoloDepth (WebAudio.GainParam bassGain) ;;;
  WebAudio.start tremolo ;;;
  noise <- WebAudio.createBufferSource context ;;
  WebAudio.setBuffer noise 6000 true ;;;
  noiseFilter <- WebAudio.createBiquadFilter context ;;
  WebAudio.setType noiseFilter (WebAudio.BiquadFilter WebAudio.lowpass) ;;;
  noiseGain <- WebAudio.createGain context ;;
  WebAudio.connect noise (WebAudio.NodeInput noiseFilter) ;;;
  WebAudio.connect noiseFilter (WebAudio.NodeInput noiseGain) ;;;
  WebAudio.connectNode noiseGain masterGain ;;;
  WebAudio.start noise ;;;
  ret {| oscillators := [bassOsc; highOsc];
         tremolo := Some tremolo;
         noise := Some noise |}.

Definition beginAmbientBed (context : nat) (masterGain : option nat) : M State unit :=
  current <- gets ambientRef ;;
  match current with
  | Some _ => ret tt   (* [if (ambientRef.current) return] *)
  | None =>
      built <- onAudio (buildAmbientBed context masterGain) ;;
      modify (setAmbientRef (Some built))
  end.

Definition triggerEffects (effects : option (list StoryEffect)) : M State unit :=
  match effects with
  | None | Some [] => ret tt
  | Some effects =>
      context <- gets audioContextRef ;;
      master <- gets masterGainRef ;;
      match context, master with
      | Some context, Some master =>
          forEach effects (λ effect,
            match effect with
            | heartbeat => onAudio (WebAudio.playHeartbeat context master)
            | creak => onAudio (WebAudio.playCreak context master)
            | whisper => onAudio (WebAudio.playWhisper context master)
            | gust => onAudio (WebAudio.playGust context master)
            | chime => onAudio (WebAudio.playChime context master)
            end)
      | _, _ => ret tt
      end
  end.

Definition startTimer : M State unit :=
  startTime <- gets (λ s, now (window s)) ;;
  modify (setElapsed 0) ;;;
  o <- gets run ;;
  handle <- onWindow (setInterval (ElapsedCb startTime) 120 o) ;;
  modify (setTimerIntervalRef (Some handle)).

(** [setVisibleSegments([])]; the ghost trace restarts with it. *)
Definition hideAll : M State unit :=
  modify (setVisibleSegments []) ;;;
  modify (setTrace []).

Definition stopExperience : M State unit :=
  clearSchedule ;;;
  modify (setStatus idle) ;;;
  modify (setActiveSegment None) ;;;
  hideAll ;;;
  modify (setElapsed 0) ;;;
  teardownAudio.

(** ** The scheduler, for a list of segments *)

Section Scheduler.

Variable segments : list StorySegment.

Definition startExperience : M State unit :=
  modify (λ s, setRun (S (run s)) s) ;;;
  clearSchedule ;;;
  hideAll ;;;
  modify (setActiveSegment None) ;;;
  modify (setStatus playing) ;;;
  modify (setElapsed 0) ;;;
  acquired <- ensureAudioContext ;;
  let '(context, master) := acquired in
  beginAmbientBed context master ;;;
  match segments !! 0%nat with
  | None => throw TypeError   (* [STORY_SEGMENTS[0].effects] on an empty list *)
  | Some first =>
      log (Triggered (id first) (effects first)) ;;;
      triggerEffects (effects first) ;;;
      startTimer ;;;
      modify (setVisibleSegments [id first]) ;;;
      log (Revealed (id first)) ;;;
      modify (setActiveSegment (Some (id first))) ;;;
      forEachIndexed 0 segments (λ segment index,
        if (index =? 0)%nat then ret tt
        else
          let delay := sumDurations (take index segments) in
          o <- gets run ;;
          timeout <- onWindow (setTimeout (RevealCb segment index) delay o) ;;
          modify (λ s, setScheduleTimeoutsRef (scheduleTimeoutsRef s ++ [timeout]) s))
  end.

(** The bodies of the three closures; [o] is the run the closure belongs to. *)
Definition runCallback (cb : Callback) (o : nat) : M State unit :=
  match cb with
  | RevealCb segment index =>
      modify (λ s, setVisibleSegments (fromSet (visibleSegments s ++ [id segment])) s) ;;;
      log (Revealed (id segment)) ;;;
      modify (setActiveSegment (Some (id segment))) ;;;
      log (Triggered (id segment) (effects segment)) ;;;
      triggerEffects (effects segment) ;;;
      if (Z.of_nat index =? Z.of_nat (length segments) - 1)%Z
      then
        (finalTimeout <- onWindow (setTimeout FinishedCb (duration segment) o) ;;
         modify (λ s, setScheduleTimeoutsRef (scheduleTimeoutsRef s ++ [finalTimeout]) s))
      else ret tt
  | FinishedCb =>
      modify (setStatus finished) ;;;
      log Finished ;;;
      modify (setActiveSegment None) ;;;
      interval <- gets timerIntervalRef ;;
      match interval with
      | Some handle =>
          if (handle =? 0)%Z then ret tt
          else (onWindow (clearInterval handle) ;;;
                modify (setTimerIntervalRef None))
      | None => ret tt
      end
  | ElapsedCb startTime =>
      delta <- gets (λ s, (now (window s) - startTime)%Z) ;;
      modify (setElapsed (Z.min delta (sumDurations segments)))
  end.

(** The event loop runs the armed timer [handle]: never before it is due,
    possibly later.  A timeout leaves the table before its callback runs; an
    interval that is still armed after its callback is due again one period
    later. *)
Definition fire (handle : Z) : M State unit :=
  w <- gets window ;;
  match timers w !! handle with
  | None => ret tt
  | Some t =>
      let time := Z.max (now w) (due t) in
      match period t with
      | None =>
          modify (setWindow {| now := time; timers := delete handle (timers w);
                               nextHandle := nextHandle w |}) ;;;
          runCallback (callback t) (owner t)
      | Some p =>
          modify (setWindow {| now := time; timers := timers w;
                               nextHandle := nextHandle w |}) ;;;
          runCallback (callback t) (owner t) ;;;
          modify (λ s, setWindow
            {| now := now (window s);
               timers := alter (λ t', {| due := (time + p)%Z; callback := callback t';
                                         period := period t'; owner := owner t' |})
                               handle (timers (window s));
               nextHandle := nextHandle (window s) |} s)
      end
  end.

(** What can happen to the page between two turns of the event loop. *)
Inductive Action :=
| Start                 (* click on the start button *)
| Stop                  (* click on the abort/reset button *)
| Fire (handle : Z)     (* a timer fires *)
| Wait (d : Z)          (* time passes *)
| Suspend (c : nat)     (* the browser suspends a running context *)
| Ended (n : nat).      (* a voice has ended: its [onended] handler runs *)

Definition handler (a : Action) : M State unit :=
  match a with
  | Start => startExperience
  | Stop => stopExperience
  | Fire handle => fire handle
  | Wait d =>
      modify (λ s, setWindow {| now := (now (window s) + Z.max 0 d)%Z;
                                timers := timers (window s);
                                nextHandle := nextHandle (window s) |} s)
  | Suspend c =>
      onAudio (λ g, (Return tt,
        if WebAudio.contexts g !! c is Some WebAudio.running
        then WebAudio.withContexts (<[c := WebAudio.suspended]>) g else g))
  | Ended n =>
      node <- gets (λ s, WebAudio.nodes (audio s) !! n) ;;
      match node with
      | Some node =>
          match WebAudio.stopAfter node, WebAudio.onended node with
          | Some _, Some gain =>
              if WebAudio.started node then onAudio (WebAudio.disconnect gain) else ret tt
          | _, _ => ret tt
          end
      | None => ret tt
      end
  end.

(** A click handler's rejected promise is dropped by the page: the step keeps
    the state and forgets the outcome. *)
Definition step (a : Action) (s : State) : State := (handler a s).2.

Definition steps (l : list Action) (s : State) : State := foldl (λ s a, step a s) s l.

End Scheduler.

(** The page when it is mounted. *)
Definition initial (b : Browser) (strict : bool) : State :=
  {| visibleSegments := []; activeSegment := None; status := idle; elapsed := 0;
     audioContextRef := None; masterGainRef := None; ambientRef := None;
     scheduleTimeoutsRef := []; timerIntervalRef := None;
     browser := b;
     window := {| now := 0; timers := ∅; nextHandle := 1 |};
     audio := {| WebAudio.strictStop := strict; WebAudio.contexts := [];
                 WebAudio.nodes := [] |};
     run := 0; trace := [] |}.

(** Timers fire in the order of their due times, and in the order of their
    handles when these are equal; every other action can happen at any time. *)
Definition earliest (w : Window) (handle : Z) : Prop :=
  ∃ t, timers w !! handle = Some t ∧
       ∀ handle' t', timers w !! handle' = Some t' →
         (due t < due t' ∨ (due t = due t' ∧ handle ≤ handle'))%Z.

Definition enabled (a : Action) (s : State) : Prop :=
  match a with
  | Fire handle => earliest (window s) handle
  | _ => True
  end.

Inductive reachable (segments : list StorySegment) : State → Prop :=
| reachable_initial b strict : reachable segments (initial b strict)
| reachable_step s a :
    reachable segments s → enabled a s → reachable segments (step segments a s).

Definition chrome : Browser := {| hasWindow := true; audioConstructor := true |}.
Definition noAudio : Browser := {| hasWindow := true; audioConstructor := false |}.

(** The event loop left to itself: fire the earliest timer, [fuel] times. *)
Definition earlier (a b : Z * Timer) : bool :=
  (due a.2 <? due b.2)%Z || ((due a.2 =? due b.2)%Z && (a.1 <=? b.1)%Z).

Definition pickEarliest (l : list (Z * Timer)) : option (Z * Timer) :=
  foldr (λ x acc, match acc with
                  | None => Some x
                  | Some y => if earlier x y then Some x else Some y
                  end) None l.

Definition nextTimer (w : Window) : option Z :=
  fst <$> pickEarliest (map_to_list (timers w)).

Fixpoint play (segments : list StorySegment) (fuel : nat) (s : State) : State :=
  match fuel with
  | O => s
  | S fuel' =>
      match nextTimer (window s) with
      | Some handle => play segments fuel' (step segments (Fire handle) s)
      | None => s
      end
  end.

(** * Reasoning rules *)

(** Weakest precondition over the handler monad: [Q] for a normal return,
    [E] for the state in which an exception escapes. *)
Definition wp {St A} (m : M St A) (Q : A → St → Prop) (E : St → Prop) (s : St) : Prop :=
  match m s with
  | (Return a, s') => Q a s'
  | (Throw _, s') => E s'
  end.

Section Rules.
Context {St : Type}.
Implicit Types (s : St) (E : St → Prop).

Lemma wp_ret {A} (a : A) (Q : A → St → Prop) E s : Q a s → wp (ret a) Q E s.
Proof. done. Qed.

Lemma wp_throw {A} e (Q : A → St → Prop) E s : E s → wp (throw e) Q E s.
Proof. done. Qed.

Lemma wp_gets {A} (f : St → A) (Q : A → St → Prop) E s : Q (f s) s → wp (gets f) Q E s.
Proof. done. Qed.

Lemma wp_modify (f : St → St) (Q : unit → St → Prop) E s : Q tt (f s) → wp (modify f) Q E s.
Proof. done. Qed.

Lemma wp_bind {A B} (m : M St A) (k : A → M St B) (Q : B → St → Prop) E s :
  wp m (λ a s', wp (k a) Q E s') E s → wp (bind m k) Q E s.
Proof. unfold wp, bind. by destruct (m s) as [[a|e] s']. Qed.

Lemma wp_tryCatch {A} (m : M St A) (h : Error → M St A) (Q : A → St → Prop) E s :
  wp m Q (λ s', ∀ e, wp (h e) Q E s') s → wp (tryCatch m h) Q E s.
Proof. unfold wp, tryCatch. destruct (m s) as [[a|e] s']; [done|]. intros H. apply H. Qed.

Lemma wp_mono {A} (m : M St A) (Q Q' : A → St → Prop) E E' s :
  wp m Q E s → (∀ a s', Q a s' → Q' a s') → (∀ s', E s' → E' s') → wp m Q' E' s.
Proof. unfold wp. destruct (m s) as [[a|e] s']; eauto. Qed.

Lemma wp_forEach {A} (I : St → Prop) (l : list A) (f : A → M St unit)
  (Q : unit → St → Prop) E s :
  I s →
  (∀ x s', x ∈ l → I s' → wp (f x) (λ _, I) E s') →
  (∀ s', I s' → Q tt s') →
  wp (forEach l f) Q E s.
Proof.
  intros Hs Hf HQ. revert s Hs.
  induction l as [|x l IH]; intros s Hs; simpl.
  - by apply wp_ret, HQ.
  - apply wp_bind. eapply wp_mono; [apply Hf; [left|done] | | done].
    intros [] s' Hs'. apply IH; [|done]. intros y s'' Hy. apply Hf. by right.
Qed.

Lemma wp_forEachIndexed {A} (I : nat → St → Prop) (l : list A) (f : A → nat → M St unit)
  (Q : unit → St → Prop) E (start : nat) s :
  I start s →
  (∀ i x s', l !! i = Some x → I (start + i)%nat s' →
     wp (f x (start + i)%nat) (λ _, I (S (start + i))) E s') →
  (∀ s', I (start + length l)%nat s' → Q tt s') →
  wp (forEachIndexed start l f) Q E s.
Proof.
  revert start s. induction l as [|x l IH]; intros start s Hs Hf HQ; simpl.
  - apply wp_ret, HQ. by rewrite Nat.add_0_r.
  - apply wp_bind.
    pose proof (Hf 0%nat x s eq_refl) as H0. rewrite Nat.add_0_r in H0.
    eapply wp_mono; [by apply H0 | | done].
    intros [] s' Hs'. simpl in Hs'. apply IH; [done | |].
    + intros i y s'' Hy HI.
      replace (S start + i)%nat with (start + S i)%nat in * by lia.
      by apply Hf.
    + intros s'' HI. apply HQ. simpl.
      by replace (start + S (length l))%nat with (S start + length l)%nat by lia.
Qed.

Lemma wp_zoom {T A} (get : T → St) (set : St → T → T) (m : M St A)
  (Q : A → T → Prop) (E' : T → Prop) (t : T) :
  wp m (λ a s', Q a (set s' t)) (λ s', E' (set s' t)) (get t) → wp (zoom get set m) Q E' t.
Proof. unfold wp, zoom. by destruct (m (get t)) as [[a|e] s']. Qed.

(** The state a computation leaves, whatever its outcome. *)
Lemma wp_final {A} (m : M St A) (I : St → Prop) s : wp m (λ _, I) I s → I (m s).2.
Proof. unfold wp. by destruct (m s) as [[a|e] s']. Qed.

Lemma wp_returns {A} (m : M St A) (Q : A → St → Prop) s :
  wp m Q (λ _, False) s → ∃ a s', m s = (Return a, s') ∧ Q a s'.
Proof. unfold wp. destruct (m s) as [[a|e] s']; [eauto|done]. Qed.

Lemma wp_of_eq {A} (m : M St A) (Q : A → St → Prop) E s a s' :
  m s = (Return a, s') → Q a s' → wp m Q E s.
Proof. unfold wp. by intros ->. Qed.

End Rules.

(** * The audio graph: what each builder adds *)

Module WebAudioFacts.
Import WebAudio.

Lemma alter_fresh {A} (f : A → A) (l1 l2 : list A) :
  alter f (length l1) (l1 ++ l2) = l1 ++ alter f 0%nat l2.
Proof. by rewrite <- (Nat.add_0_r (length l1)), alter_app_r. Qed.

Lemma lookup_fresh {A} (l1 l2 : list A) : (l1 ++ l2) !! length l1 = l2 !! 0%nat.
Proof. by rewrite lookup_app_r, Nat.sub_diag. Qed.

Lemma lookup_fresh_plus {A} (l1 l2 : list A) (k : nat) :
  (l1 ++ l2) !! (length l1 + k)%nat = l2 !! k.
Proof. rewrite lookup_app_r by lia. f_equal. lia. Qed.

(** A heap in which the nodes [l] were made after the nodes [ns]: the
    builders only ever touch [l], at indices [length ns + i]. *)
Definition heap (strict : bool) (cs : list AudioContextState)
  (ns l : list AudioNode) : Graph :=
  {| strictStop := strict; contexts := cs; nodes := ns ++ l |}.

Lemma run_bind {St A B} (m : M St A) (k : A → M St B) s a s1 r :
  m s = (Return a, s1) → k a s1 = r → bind m k s = r.
Proof. unfold bind. by intros -> ->. Qed.

Lemma run_bind_throw {St A B} (m : M St A) (k : A → M St B) s e s1 :
  m s = (Throw e, s1) → bind m k s = (Throw e, s1).
Proof. unfold bind. by intros ->. Qed.

Lemma createNode_run strict cs ns l c k :
  createNode c k (heap strict cs ns l)
  = (Return (length ns + length l)%nat, heap strict cs ns (l ++ [newNode c k])).
Proof. unfold createNode, heap, withNodes. simpl. by rewrite length_app, app_assoc. Qed.

Lemma update_run strict cs ns l i f :
  update (length ns + i) f (heap strict cs ns l)
  = (Return tt, heap strict cs ns (alter f i l)).
Proof. unfold update, modify, heap, withNodes. simpl. by rewrite alter_app_r. Qed.

Lemma stop_run strict cs ns l i d node :
  l !! i = Some node → stopRaises strict node = false →
  stop (length ns + i) d (heap strict cs ns l)
  = (Return tt, heap strict cs ns (alter (setStopAfter d) i l)).
Proof.
  intros Hl Hr. unfold stop, heap, withNodes. simpl.
  by rewrite lookup_fresh_plus, Hl, Hr, alter_app_r.
Qed.

Lemma stopRaises_started strict c k o e :
  stopRaises strict (Build_AudioNode c k true None o e) = false.
Proof. unfold stopRaises. simpl. by rewrite andb_false_r. Qed.

(** Run a builder one statement at a time on a [heap]. *)
Ltac exec :=
  lazymatch goal with
  | |- bind _ _ _ = _ =>
      first [ eapply run_bind; [exec | cbv beta; simpl; exec]
            | eapply run_bind_throw; exec ]
  | |- createNode _ _ _ = _ => apply createNode_run
  | |- update _ _ _ = _ => apply update_run
  | |- stop _ _ _ = _ =>
      eapply stop_run; [reflexivity | unfold stopRaises; simpl; apply andb_false_r]
  | |- ret _ _ = _ => reflexivity
  | |- throw _ _ = _ => reflexivity
  | |- _ => reflexivity
  end.

Ltac run_builder :=
  intros [strict cs ns];
  rewrite <- (app_nil_r ns) at 1;
  change {| strictStop := strict; contexts := cs; nodes := ns ++ [] |}
    with (heap strict cs ns []);
  unfold playHeartbeat, playCreak, playWhisper, playGust, playChime, buildAmbientBed;
  cbn [forEachIndexed];
  unfold createOscillator, createGain, createBiquadFilter, createBufferSource,
    setType, setBuffer, connectNode, connect, disconnect, start, whenEnded;
  etransitivity; [exec|];
  unfold heap, withNodes; simpl; rewrite ?Nat.add_0_r; reflexivity.

Definition heartbeatNodes (c d n : nat) : list AudioNode :=
  [ Build_AudioNode c Gain false None [NodeInput d] None;
    Build_AudioNode c (Oscillator sine) true (Some 1400%Z) [NodeInput n] (Some n) ].

Definition creakNodes (c d n : nat) : list AudioNode :=
  [ Build_AudioNode c (Oscillator sawtooth) true (Some 2500%Z)
      [NodeInput (n + 2)] (Some (n + 1)%nat);
    Build_AudioNode c Gain false None [NodeInput d] None;
    Build_AudioNode c (BiquadFilter bandpass) false None [NodeInput (n + 1)] None ].

Definition whisperNodes (c d n : nat) : list AudioNode :=
  [ Build_AudioNode c (BufferSource (Some 2200%Z) false) true (Some 2400%Z)
      [NodeInput (n + 1)] (Some (n + 2)%nat);
    Build_AudioNode c (BiquadFilter highpass) false None [NodeInput (n + 2)] None;
    Build_AudioNode c Gain false None [NodeInput d] None ].

Definition gustNodes (c d n : nat) : list AudioNode :=
  [ Build_AudioNode c (BufferSource (Some 3000%Z) false) true (Some 3200%Z)
      [NodeInput (n + 1)] (Some (n + 2)%nat);
    Build_AudioNode c (BiquadFilter bandpass) false None [NodeInput (n + 2)] None;
    Build_AudioNode c Gain false None [NodeInput d] None ].

Definition chimeNodes (c d n : nat) : list AudioNode :=
  [ Build_AudioNode c (Oscillator sine) true (Some 1980%Z)
      [NodeInput (n + 1)] (Some (n + 1)%nat);
    Build_AudioNode c Gain false None [NodeInput d] None;
    Build_AudioNode c (Oscillator sine) true (Some 2260%Z)
      [NodeInput (n + 3)] (Some (n + 3)%nat);
    Build_AudioNode c Gain false None [NodeInput d] None;
    Build_AudioNode c (Oscillator sine) true (Some 2540%Z)
      [NodeInput (n + 5)] (Some (n + 5)%nat);
    Build_AudioNode c Gain false None [NodeInput d] None ].

Lemma playHeartbeat_eq c d g :
  playHeartbeat c d g
  = (Return tt, withNodes (λ ns, ns ++ heartbeatNodes c d (length ns)) g).
Proof. revert g. run_builder. Qed.

Lemma playCreak_eq c d g :
  playCreak c d g = (Return tt, withNodes (λ ns, ns ++ creakNodes c d (length ns)) g).
Proof. revert g. run_builder. Qed.

Lemma playWhisper_eq c d g :
  playWhisper c d g = (Return tt, withNodes (λ ns, ns ++ whisperNodes c d (length ns)) g).
Proof. revert g. run_builder. Qed.

Lemma playGust_eq c d g :
  playGust c d g = (Return tt, withNodes (λ ns, ns ++ gustNodes c d (length ns)) g).
Proof. revert g. run_builder. Qed.

Lemma playChime_eq c d g :
  playChime c d g = (Return tt, withNodes (λ ns, ns ++ chimeNodes c d (length ns)) g).
Proof. revert g. run_builder. Qed.

(** Voices are quiet by the time they are built: every source they start
    already has its stop scheduled. *)
Definition quiet (n : AudioNode) : Prop := sounding n = false.

Lemma voices_quiet c d n :
  Forall quiet (heartbeatNodes c d n) ∧ Forall quiet (creakNodes c d n) ∧
  Forall quiet (whisperNodes c d n) ∧ Forall quiet (gustNodes c d n) ∧
  Forall quiet (chimeNodes c d n).
Proof. repeat split; repeat constructor. Qed.

(** The nine nodes of the ambient bed, [n] being the first free index:
    bass oscillator and gain, high oscillator and gain, tremolo and its depth,
    noise source, filter and gain. *)
Definition ambientBedNodes (c m n : nat) : list AudioNode :=
  [ Build_AudioNode c (Oscillator sawtooth) true None [NodeInput (n + 1)] None;
    Build_AudioNode c Gain false None [NodeInput m] None;
    Build_AudioNode c (Oscillator triangle) true None [NodeInput (n + 3)] None;
    Build_AudioNode c Gain false None [NodeInput m] None;
    Build_AudioNode c (Oscillator sine) true None [NodeInput (n + 5)] None;
    Build_AudioNode c Gain false None [GainParam (n + 1)] None;
    Build_AudioNode c (BufferSource (Some 6000%Z) true) true None [NodeInput (n + 7)] None;
    Build_AudioNode c (BiquadFilter lowpass) false None [NodeInput (n + 8)] None;
    Build_AudioNode c Gain false None [NodeInput m] None ].

Definition ambientBedRefs (n : nat) : AmbientNodes :=
  {| oscillators := [n; (n + 2)%nat]; tremolo := Some (n + 4)%nat;
     noise := Some (n + 6)%nat |}.

Lemma buildAmbientBed_eq c m g :
  buildAmbientBed c (Some m) g
  = (Return (ambientBedRefs (length (nodes g))),
     withNodes (λ ns, ns ++ ambientBedNodes c m (length ns)) g).
Proof. revert g. run_builder. Qed.

(** With a [null] master the first [connect] to it throws: the bass pair
    exists by then, nothing was started. *)
Definition orphanNodes (c n : nat) : list AudioNode :=
  [ Build_AudioNode c (Oscillator sawtooth) false None [NodeInput (n + 1)] None;
    Build_AudioNode c Gain false None [] None ].

Lemma buildAmbientBed_null c g :
  buildAmbientBed c None g
  = (Throw TypeError, withNodes (λ ns, ns ++ orphanNodes c (length ns)) g).
Proof. revert g. run_builder. Qed.

Lemma orphans_quiet c n : Forall quiet (orphanNodes c n).
Proof. repeat constructor. Qed.

End WebAudioFacts.

(** * The handlers in closed form *)

Import WebAudioFacts.

(** [s] with some nodes added to the audio heap, everything else as it was. *)
Definition addNodes (added : list WebAudio.AudioNode) (s : State) : State :=
  setAudio (WebAudio.withNodes (λ ns, ns ++ added) (audio s)) s.

Lemma addNodes_nil s : addNodes [] s = s.
Proof.
  destruct s as [? ? ? ? ? ? ? ? ? ? ? [? ? ns] ? ?].
  unfold addNodes, setAudio, WebAudio.withNodes. simpl. by rewrite app_nil_r.
Qed.

Lemma addNodes_app a b s : addNodes b (addNodes a s) = addNodes (a ++ b) s.
Proof.
  unfold addNodes, setAudio, WebAudio.withNodes. simpl. by rewrite app_assoc.
Qed.

Definition playEffect (effect : StoryEffect) (context master : nat)
  : M WebAudio.Graph unit :=
  match effect with
  | heartbeat => WebAudio.playHeartbeat context master
  | creak => WebAudio.playCreak context master
  | whisper => WebAudio.playWhisper context master
  | gust => WebAudio.playGust context master
  | chime => WebAudio.playChime context master
  end.

Lemma playEffect_adds effect c m g :
  ∃ added, playEffect effect c m g
           = (Return tt, WebAudio.withNodes (λ ns, ns ++ added) g)
           ∧ Forall quiet added.
Proof.
  destruct (voices_quiet c m (length (WebAudio.nodes g))) as (H1 & H2 & H3 & H4 & H5).
  destruct effect; simpl.
  - eexists. split; [apply playHeartbeat_eq | done].
  - eexists. split; [apply playCreak_eq | done].
  - eexists. split; [apply playWhisper_eq | done].
  - eexists. split; [apply playGust_eq | done].
  - eexists. split; [apply playChime_eq | done].
Qed.

Lemma triggerEffects_loop (l : list StoryEffect) c m s :
  ∃ added,
    forEach l (λ effect,
      match effect with
      | heartbeat => onAudio (WebAudio.playHeartbeat c m)
      | creak => onAudio (WebAudio.playCreak c m)
      | whisper => onAudio (WebAudio.playWhisper c m)
      | gust => onAudio (WebAudio.playGust c m)
      | chime => onAudio (WebAudio.playChime c m)
      end) s = (Return tt, addNodes added s)
    ∧ Forall quiet added.
Proof.
  revert s. induction l as [|effect l IH]; intros s; simpl.
  - exists []. by rewrite addNodes_nil.
  - destruct (playEffect_adds effect c m (audio s)) as (a & Ha & Hq).
    assert (match effect with
      | heartbeat => onAudio (WebAudio.playHeartbeat c m)
      | creak => onAudio (WebAudio.playCreak c m)
      | whisper => onAudio (WebAudio.playWhisper c m)
      | gust => onAudio (WebAudio.playGust c m)
      | chime => onAudio (WebAudio.playChime c m)
      end s = (Return tt, addNodes a s)) as Hstep.
    { unfold onAudio, zoom, addNodes. destruct effect; simpl in Ha; by rewrite Ha. }
    unfold bind at 1. rewrite Hstep.
    destruct (IH (addNodes a s)) as (b & Hb & Hqb).
    exists (a ++ b). rewrite Hb, addNodes_app. split; [done|].
    by apply Forall_app.
Qed.

(** Whatever it is given, [triggerEffects] returns; all it can do is add
    quiet nodes to the heap. *)
Lemma triggerEffects_adds effects s :
  ∃ added, triggerEffects effects s = (Return tt, addNodes added s) ∧ Forall quiet added.
Proof.
  unfold triggerEffects.
  destruct effects as [[|e l]|]; try (exists []; by rewrite addNodes_nil).
  unfold bind at 1, gets at 1. unfold bind at 1, gets at 1.
  destruct (audioContextRef s) as [c|]; [|exists []; by rewrite addNodes_nil].
  destruct (masterGainRef s) as [m|]; [|exists []; by rewrite addNodes_nil].
  apply triggerEffects_loop.
Qed.

(** The timer table with some handles cancelled. *)
Definition cancelAll (handles : list Z) (w : Window) : Window :=
  {| now := now w; timers := foldl (λ m h, delete h m) (timers w) handles;
     nextHandle := nextHandle w |}.

Definition cleared (s : State) : State :=
  let s1 := setScheduleTimeoutsRef []
              (setWindow (cancelAll (scheduleTimeoutsRef s) (window s)) s) in
  match timerIntervalRef s with
  | Some handle =>
      if (handle =? 0)%Z then s1
      else setTimerIntervalRef None (setWindow (cancelAll [handle] (window s1)) s1)
  | None => s1
  end.

Lemma clearTimeout_loop handles s :
  forEach handles (λ handle, onWindow (clearTimeout handle)) s
  = (Return tt, setWindow (cancelAll handles (window s)) s).
Proof.
  revert s. induction handles as [|h l IH]; intros s.
  - destruct s as [? ? ? ? ? ? ? ? ? ? [? ? ?] ? ? ?]. reflexivity.
  - simpl. unfold bind at 1. simpl. rewrite IH. reflexivity.
Qed.

Lemma clearSchedule_eq s : clearSchedule s = (Return tt, cleared s).
Proof.
  unfold clearSchedule, cleared. unfold bind at 1, gets at 1.
  unfold bind at 1. rewrite clearTimeout_loop.
  unfold bind at 1, modify at 1. unfold bind at 1, gets at 1. simpl.
  destruct (timerIntervalRef s) as [h|]; [|done].
  destruct (h =? 0)%Z; done.
Qed.

Lemma lookup_deleteAll (m : gmap Z Timer) (handles : list Z) (h : Z) :
  foldl (λ m h0, delete h0 m) m handles !! h
  = if decide (h ∈ handles) then None else m !! h.
Proof.
  revert m. induction handles as [|x l IH]; intros m; simpl.
  - destruct (decide (h ∈ [])) as [Hin|]; [|done]. by apply elem_of_nil in Hin.
  - rewrite IH. destruct (decide (h ∈ l)) as [Hin|Hnot].
    + destruct (decide (h ∈ x :: l)) as [|Hno]; [done|]. destruct Hno. by right.
    + destruct (decide (h = x)) as [->|Hne].
      * rewrite lookup_delete_eq. destruct (decide (x ∈ x :: l)) as [|Hno]; [done|].
        destruct Hno. by left.
      * rewrite lookup_delete_ne by done.
        destruct (decide (h ∈ x :: l)) as [[->|Hin]%elem_of_cons|]; done.
Qed.

(** Every armed timer is remembered by one of the two refs. *)
Definition tracked (s : State) : Prop :=
  ∀ h t, timers (window s) !! h = Some t →
    h ∈ scheduleTimeoutsRef s ∨ (timerIntervalRef s = Some h ∧ h ≠ 0%Z).

Lemma cleared_empty s : tracked s → timers (window (cleared s)) = ∅.
Proof.
  intros Ht. apply map_eq. intros h. rewrite lookup_empty.
  assert (h ∉ scheduleTimeoutsRef s →
          timers (window s) !! h = None ∨ (timerIntervalRef s = Some h ∧ h ≠ 0%Z))
    as Hcase.
  { intros Hn. destruct (timers (window s) !! h) as [t|] eqn:Hh; [|by left].
    destruct (Ht h t Hh) as [|]; [done|by right]. }
  unfold cleared.
  destruct (timerIntervalRef s) as [h'|] eqn:Hi.
  - destruct (Z.eqb_spec h' 0) as [->|Hnz]; simpl.
    + rewrite lookup_deleteAll. destruct (decide _) as [|Hn]; [done|].
      destruct (Hcase Hn) as [|[[= <-] ?]]; done.
    + rewrite lookup_delete. destruct (decide (h' = h)) as [|Hne]; [done|].
      rewrite lookup_deleteAll. destruct (decide _) as [|Hn]; [done|].
      destruct (Hcase Hn) as [|[[= <-] ?]]; done.
  - simpl. rewrite lookup_deleteAll. destruct (decide _) as [|Hn]; [done|].
    destruct (Hcase Hn) as [|[? ?]]; done.
Qed.

Lemma cleared_schedule s : scheduleTimeoutsRef (cleared s) = [].
Proof.
  unfold cleared. destruct (timerIntervalRef s) as [h|]; [destruct (h =? 0)%Z|]; done.
Qed.


(** *** Stopping the ambient bed *)

(** [try { node.stop() } catch {}; node.disconnect()] on the heap. *)
Definition silence (g : WebAudio.Graph) (n : nat) : WebAudio.Graph :=
  WebAudio.withNodes (alter (WebAudio.setOutputs []) n)
    match WebAudio.nodes g !! n with
    | Some node =>
        if WebAudio.stopRaises (WebAudio.strictStop g) node then g
        else WebAudio.withNodes (alter (WebAudio.setStopAfter 0) n) g
    | None => g
    end.

Definition owned (a : AmbientNodes) : list nat :=
  oscillators a ++ option_list (tremolo a) ++ option_list (noise a).

Lemma silence_step n s :
  bind (tryCatch (onAudio (WebAudio.stop n 0)) (λ _, ret tt))
       (λ _, onAudio (WebAudio.disconnect n)) s
  = (Return tt, setAudio (silence (audio s) n) s).
Proof.
  unfold bind, tryCatch, onAudio, zoom, WebAudio.stop, WebAudio.disconnect,
    WebAudio.update, modify, silence, ret.
  destruct (WebAudio.nodes (audio s) !! n) as [node|]; simpl.
  - destruct (WebAudio.stopRaises _ node); reflexivity.
  - reflexivity.
Qed.

Lemma silence_loop l s :
  forEach l (λ osc,
    tryCatch (onAudio (WebAudio.stop osc 0)) (λ _, ret tt) ;;;
    onAudio (WebAudio.disconnect osc)) s
  = (Return tt, setAudio (foldl silence (audio s) l) s).
Proof.
  revert s. induction l as [|n l IH]; intros s; simpl.
  - destruct s; reflexivity.
  - unfold bind at 1. rewrite silence_step. rewrite IH. reflexivity.
Qed.

Lemma stopAmbient_eq s a :
  ambientRef s = Some a →
  stopAmbient s
  = (Return tt, setAmbientRef None (setAudio (foldl silence (audio s) (owned a)) s)).
Proof.
  intros Ha. unfold stopAmbient. unfold bind at 1, gets at 1. rewrite Ha.
  unfold bind at 1. rewrite silence_loop.
  unfold owned. rewrite !foldl_app.
  destruct (tremolo a) as [t|], (noise a) as [z|]; simpl;
    repeat (unfold bind at 1; rewrite ?silence_step; simpl); reflexivity.
Qed.

Lemma stopAmbient_none s : ambientRef s = None → stopAmbient s = (Return tt, s).
Proof. intros Ha. unfold stopAmbient. unfold bind, gets. by rewrite Ha. Qed.

(** A node that is disconnected and does not sound. *)
Definition silent (node : WebAudio.AudioNode) : Prop :=
  WebAudio.outputs node = [] ∧ WebAudio.sounding node = false.

Lemma silence_frame g n :
  WebAudio.strictStop (silence g n) = WebAudio.strictStop g
  ∧ WebAudio.contexts (silence g n) = WebAudio.contexts g
  ∧ length (WebAudio.nodes (silence g n)) = length (WebAudio.nodes g).
Proof.
  unfold silence. destruct (WebAudio.nodes g !! n) as [node|]; simpl;
    [destruct (WebAudio.stopRaises _ node); simpl|];
    by rewrite ?length_alter.
Qed.

Lemma sounding_setOutputs_here o node :
  WebAudio.sounding (WebAudio.setOutputs o node) = WebAudio.sounding node.
Proof. done. Qed.

Lemma silence_lookup g n k node' :
  WebAudio.nodes (silence g n) !! k = Some node' →
  ∃ node, WebAudio.nodes g !! k = Some node
          ∧ (k = n → silent node')
          ∧ (k ≠ n → node' = node)
          ∧ (quiet node → quiet node')
          ∧ (silent node → silent node').
Proof.
  unfold silence. intros H.
  destruct (decide (k = n)) as [->|Hne].
  - destruct (WebAudio.nodes g !! n) as [node|] eqn:Hn.
    + exists node. split; [done|].
      destruct (WebAudio.stopRaises (WebAudio.strictStop g) node) eqn:Hr; simpl in H.
      * rewrite list_lookup_alter_eq, Hn in H. simpl in H. simplify_eq.
        assert (WebAudio.sounding node = false) as Hq.
        { unfold WebAudio.stopRaises, WebAudio.sounding in *.
          destruct (WebAudio.started node), (WebAudio.stopAfter node),
            (WebAudio.strictStop g); done. }
        unfold silent, quiet. rewrite sounding_setOutputs_here.
        split_and!; [done|done|done|by intros [_ ?]].
      * rewrite !list_lookup_alter_eq, Hn in H. simpl in H. simplify_eq.
        unfold silent, quiet, WebAudio.sounding. simpl. rewrite andb_false_r.
        split_and!; done.
    + simpl in H. by rewrite list_lookup_alter_eq, Hn in H.
  - assert (WebAudio.nodes g !! k = Some node') as Hk.
    { destruct (WebAudio.nodes g !! n) as [node|];
        [destruct (WebAudio.stopRaises _ node)|]; simpl in H;
        by rewrite ?list_lookup_alter_ne in H by done. }
    exists node'. split_and!; done.
Qed.

Lemma silence_all l g k node' :
  WebAudio.nodes (foldl silence g l) !! k = Some node' →
  ∃ node, WebAudio.nodes g !! k = Some node
          ∧ (k ∈ l → silent node')
          ∧ (k ∉ l → node' = node)
          ∧ (quiet node → quiet node')
          ∧ (silent node → silent node').
Proof.
  revert g. induction l as [|n l IH]; intros g; simpl.
  - intros ->. exists node'. set_solver.
  - intros H. destruct (IH _ H) as (mid & Hmid & H1 & H2 & H3 & H4).
    destruct (silence_lookup _ _ _ _ Hmid) as (node & Hn & G1 & G2 & G3 & G4).
    exists node. split_and!; [done| | |by auto|by auto].
    + intros [->|Hin]%elem_of_cons; [|by auto].
      destruct (decide (n ∈ l)); [by auto|]. rewrite H2 by done. by auto.
    + intros Hnot. rewrite H2, G2; set_solver.
Qed.

Lemma silence_all_frame l g :
  WebAudio.strictStop (foldl silence g l) = WebAudio.strictStop g
  ∧ WebAudio.contexts (foldl silence g l) = WebAudio.contexts g
  ∧ length (WebAudio.nodes (foldl silence g l)) = length (WebAudio.nodes g).
Proof.
  revert g. induction l as [|n l IH]; intros g; simpl; [done|].
  destruct (IH (silence g n)) as (-> & -> & ->). apply silence_frame.
Qed.

(** *** Starting the ambient bed *)

Lemma beginAmbientBed_running c m s :
  is_Some (ambientRef s) → beginAmbientBed c m s = (Return tt, s).
Proof. intros [a Ha]. unfold beginAmbientBed, bind, gets. by rewrite Ha. Qed.

Lemma beginAmbientBed_fresh c m s :
  ambientRef s = None →
  beginAmbientBed c (Some m) s
  = (Return tt,
     setAmbientRef (Some (ambientBedRefs (length (WebAudio.nodes (audio s)))))
       (addNodes (ambientBedNodes c m (length (WebAudio.nodes (audio s)))) s)).
Proof.
  intros Ha. unfold beginAmbientBed, bind, gets, onAudio, zoom. rewrite Ha.
  by rewrite buildAmbientBed_eq.
Qed.

Lemma beginAmbientBed_null c s :
  ambientRef s = None →
  beginAmbientBed c None s
  = (Throw TypeError, addNodes (orphanNodes c (length (WebAudio.nodes (audio s)))) s).
Proof.
  intros Ha. unfold beginAmbientBed, bind, gets, onAudio, zoom. rewrite Ha.
  by rewrite buildAmbientBed_null.
Qed.

(** *** Acquiring the audio session *)

(** The session [ensureAudioContext] creates: a running context and its
    master gain, connected to the destination. *)
Definition sessionOpened (s : State) : State :=
  let g := audio s in
  let c := length (WebAudio.contexts g) in
  let m := length (WebAudio.nodes g) in
  setMasterGainRef (Some m)
    (setAudioContextRef (Some c)
       (setAudio
          {| WebAudio.strictStop := WebAudio.strictStop g;
             WebAudio.contexts := WebAudio.contexts g ++ [WebAudio.running];
             WebAudio.nodes := WebAudio.nodes g ++
               [WebAudio.Build_AudioNode c WebAudio.Gain false None
                  [WebAudio.ContextDestination] None] |} s)).

Definition sessionResumed (c : nat) (s : State) : State :=
  match WebAudio.contexts (audio s) !! c with
  | Some WebAudio.suspended =>
      setAudio (WebAudio.withContexts (<[c := WebAudio.running]>) (audio s)) s
  | _ => s
  end.

Lemma ensureAudioContext_server s :
  hasWindow (browser s) = false →
  ensureAudioContext s = (Throw (JsError "AudioContext unavailable on the server"), s).
Proof. intros H. unfold ensureAudioContext, bind, gets. simpl. by rewrite H. Qed.

Lemma ensureAudioContext_unsupported s :
  hasWindow (browser s) = true → audioContextRef s = None →
  audioConstructor (browser s) = false →
  ensureAudioContext s
  = (Throw (JsError "Web Audio API is not supported in this browser."), s).
Proof.
  intros H1 H2 H3. unfold ensureAudioContext, bind, gets. simpl.
  rewrite H1. simpl. rewrite H2. simpl. by rewrite H3.
Qed.

Lemma ensureAudioContext_new s :
  hasWindow (browser s) = true → audioContextRef s = None →
  audioConstructor (browser s) = true →
  ensureAudioContext s
  = (Return (length (WebAudio.contexts (audio s)),
             Some (length (WebAudio.nodes (audio s)))), sessionOpened s).
Proof.
  intros H1 H2 H3. unfold ensureAudioContext, bind, gets. simpl.
  rewrite H1. simpl. rewrite H2. simpl. rewrite H3. simpl.
  unfold onAudio, zoom, WebAudio.newAudioContext, WebAudio.createGain,
    WebAudio.createNode, WebAudio.connect, WebAudio.update, modify. simpl.
  unfold ret, sessionOpened, setMasterGainRef, setAudioContextRef, setAudio,
    WebAudio.withNodes, WebAudio.withContexts. simpl.
  rewrite alter_fresh. reflexivity.
Qed.

Lemma ensureAudioContext_reuse s c :
  hasWindow (browser s) = true → audioContextRef s = Some c →
  ensureAudioContext s = (Return (c, masterGainRef s), sessionResumed c s).
Proof.
  intros H1 H2. unfold ensureAudioContext, bind, gets. simpl.
  rewrite H1. simpl. rewrite H2. simpl.
  unfold onAudio, zoom, WebAudio.contextState, gets, sessionResumed. simpl.
  destruct (WebAudio.contexts (audio s) !! c) as [[]|] eqn:E; simpl;
    unfold WebAudio.resume; rewrite ?E; simpl; rewrite ?H2; try reflexivity;
    destruct s; simpl in *; by rewrite ?H2.
Qed.

(** *** Starting a run *)

Definition noted (e : Event) (s : State) : State :=
  setTrace ((now (window s), e) :: trace s) s.

(** The state [startExperience] reaches before it asks for the audio session. *)
Definition prepared (s : State) : State :=
  setElapsed 0
    (setStatus playing
       (setActiveSegment None
          (setTrace [] (setVisibleSegments [] (cleared (setRun (S (run s)) s)))))).

Definition timerStarted (s : State) : State :=
  setTimerIntervalRef (Some (nextHandle (window s)))
    (setWindow (setInterval (ElapsedCb (now (window s))) 120 (run s) (window s)).2
       (setElapsed 0 s)).

Lemma startTimer_eq s : startTimer s = (Return tt, timerStarted s).
Proof. reflexivity. Qed.

Section SchedulerFacts.

Variable segments : list StorySegment.

Definition armReveal (segment : StorySegment) (index : nat) (s : State) : State :=
  setScheduleTimeoutsRef (scheduleTimeoutsRef s ++ [nextHandle (window s)])
    (setWindow
       (setTimeout (RevealCb segment index) (sumDurations (take index segments))
          (run s) (window s)).2 s).

Fixpoint armAll (start : nat) (l : list StorySegment) (s : State) : State :=
  match l with
  | [] => s
  | segment :: l' =>
      armAll (S start) l' (if (start =? 0)%nat then s else armReveal segment start s)
  end.

Lemma scheduleLoop_eq start l s :
  forEachIndexed start l (λ segment index,
    if (index =? 0)%nat then ret tt
    else
      let delay := sumDurations (take index segments) in
      o <- gets run ;;
      timeout <- onWindow (setTimeout (RevealCb segment index) delay o) ;;
      modify (λ s, setScheduleTimeoutsRef (scheduleTimeoutsRef s ++ [timeout]) s)) s
  = (Return tt, armAll start l s).
Proof.
  revert start s. induction l as [|x l IH]; intros start s; simpl; [done|].
  unfold bind at 1. destruct (start =? 0)%nat; simpl; by rewrite IH.
Qed.

Definition scheduled (first : StorySegment) (s : State) : State :=
  armAll 0 segments
    (setActiveSegment (Some (id first))
       (noted (Revealed (id first))
          (setVisibleSegments [id first] (timerStarted s)))).

(** What [startExperience] does once the ambient bed runs. *)
Definition launch (s : State) : Outcome unit * State :=
  match segments !! 0%nat with
  | None => (Throw TypeError, s)
  | Some first =>
      (Return tt,
       scheduled first
         (triggerEffects (effects first)
            (noted (Triggered (id first) (effects first)) s)).2)
  end.

Lemma startExperience_eq s :
  startExperience segments s
  = match ensureAudioContext (prepared s) with
    | (Throw e, s2) => (Throw e, s2)
    | (Return (context, master), s2) =>
        match beginAmbientBed context master s2 with
        | (Throw e, s3) => (Throw e, s3)
        | (Return _, s3) => launch s3
        end
    end.
Proof.
  unfold startExperience.
  do 2 (eapply run_bind; [first [apply clearSchedule_eq | reflexivity] | cbv beta]).
  do 4 (eapply run_bind; [reflexivity | cbv beta]).
  change (setElapsed 0 _) with (prepared s).
  unfold bind at 1.
  destruct (ensureAudioContext (prepared s)) as [[[c m]|e] s2]; [|done].
  unfold bind at 1.
  destruct (beginAmbientBed c m s2) as [[[]|e] s3]; [|done].
  unfold launch. destruct (segments !! 0%nat) as [first|]; [|done].
  eapply run_bind; [reflexivity | cbv beta].
  change (setTrace _ s3) with (noted (Triggered (id first) (effects first)) s3).
  destruct (triggerEffects_adds (effects first)
              (noted (Triggered (id first) (effects first)) s3)) as (added & Heq & _).
  rewrite Heq. simpl snd.
  eapply run_bind; [exact Heq | cbv beta].
  eapply run_bind; [apply startTimer_eq | cbv beta].
  do 3 (eapply run_bind; [reflexivity | cbv beta]).
  rewrite scheduleLoop_eq. reflexivity.
Qed.

End SchedulerFacts.

(** *** Tearing down *)

Definition ambientStopped (s : State) : State :=
  match ambientRef s with
  | Some a => setAmbientRef None (setAudio (foldl silence (audio s) (owned a)) s)
  | None => s
  end.

Definition masterReleased (s : State) : State :=
  match masterGainRef s with
  | Some m =>
      setMasterGainRef None
        (setAudio (WebAudio.withNodes (alter (WebAudio.setOutputs []) m) (audio s)) s)
  | None => s
  end.

Definition contextClosed (s : State) : State :=
  match audioContextRef s with
  | Some c =>
      setAudioContextRef None
        match WebAudio.contexts (audio s) !! c with
        | Some WebAudio.closed => s
        | _ => setAudio (WebAudio.withContexts (<[c := WebAudio.closed]>) (audio s)) s
        end
  | None => s
  end.

Definition tornDown (s : State) : State :=
  contextClosed (masterReleased (ambientStopped s)).

Lemma stopAmbient_stopped s : stopAmbient s = (Return tt, ambientStopped s).
Proof.
  unfold ambientStopped. destruct (ambientRef s) as [a|] eqn:Ha.
  - by apply stopAmbient_eq.
  - by apply stopAmbient_none.
Qed.

Lemma teardownAudio_eq s : teardownAudio s = (Return tt, tornDown s).
Proof.
  unfold teardownAudio, tornDown.
  unfold bind at 1. rewrite stopAmbient_stopped.
  generalize (ambientStopped s). clear s. intros s.
  unfold bind at 1, gets at 1. unfold bind at 1.
  assert (match masterGainRef s with
          | Some masterGain =>
              onAudio (WebAudio.disconnect masterGain) ;;; modify (setMasterGainRef None)
          | None => ret tt
          end s = (Return tt, masterReleased s)) as ->.
  { unfold masterReleased. by destruct (masterGainRef s). }
  generalize (masterReleased s). clear s. intros s.
  unfold bind at 1, gets at 1. unfold contextClosed.
  destruct (audioContextRef s) as [c|]; [|done].
  unfold bind, tryCatch, onAudio, zoom, WebAudio.contextState, WebAudio.close, gets,
    modify, ret. simpl.
  destruct (WebAudio.contexts (audio s) !! c) as [[]|] eqn:E; simpl; rewrite ?E;
    simpl; reflexivity.
Qed.

Definition stopped (s : State) : State :=
  tornDown
    (setElapsed 0
       (setTrace [] (setVisibleSegments []
          (setActiveSegment None (setStatus idle (cleared s)))))).

Lemma stopExperience_eq s : stopExperience s = (Return tt, stopped s).
Proof.
  unfold stopExperience, stopped.
  eapply run_bind; [apply clearSchedule_eq | cbv beta].
  do 4 (eapply run_bind; [reflexivity | cbv beta]).
  apply teardownAudio_eq.
Qed.

(** *** Timers firing *)

Definition intervalCleared (s : State) : State :=
  match timerIntervalRef s with
  | Some handle =>
      if (handle =? 0)%Z then s
      else setTimerIntervalRef None (setWindow (cancelAll [handle] (window s)) s)
  | None => s
  end.

Section CallbackFacts.

Variable segments : list StorySegment.

Definition armFinal (segment : StorySegment) (o : nat) (s : State) : State :=
  setScheduleTimeoutsRef (scheduleTimeoutsRef s ++ [nextHandle (window s)])
    (setWindow (setTimeout FinishedCb (duration segment) o (window s)).2 s).

Definition isLast (index : nat) : bool :=
  (Z.of_nat index =? Z.of_nat (length segments) - 1)%Z.

Definition revealedBy (segment : StorySegment) (s : State) : State :=
  noted (Triggered (id segment) (effects segment))
    (setActiveSegment (Some (id segment))
       (noted (Revealed (id segment))
          (setVisibleSegments (fromSet (visibleSegments s ++ [id segment])) s))).

(** The state a callback leaves. *)
Definition ran (cb : Callback) (o : nat) (s : State) : State :=
  match cb with
  | RevealCb segment index =>
      let s' := (triggerEffects (effects segment) (revealedBy segment s)).2 in
      if isLast index then armFinal segment o s' else s'
  | FinishedCb =>
      intervalCleared (setActiveSegment None (noted Finished (setStatus finished s)))
  | ElapsedCb startTime =>
      setElapsed (Z.min (now (window s) - startTime) (sumDurations segments)) s
  end.

Lemma runCallback_eq cb o s : runCallback segments cb o s = (Return tt, ran cb o s).
Proof.
  destruct cb as [segment index| |startTime]; unfold runCallback, ran.
  - do 4 (eapply run_bind; [reflexivity | cbv beta]).
    change (setTrace _ _) with (revealedBy segment s).
    destruct (triggerEffects_adds (effects segment) (revealedBy segment s))
      as (added & Heq & _).
    rewrite Heq. cbv zeta. simpl snd.
    eapply run_bind; [exact Heq | cbv beta]. clear Heq.
    fold (isLast index). generalize (addNodes added (revealedBy segment s)).
    intros s'. destruct (isLast index); reflexivity.
  - do 4 (eapply run_bind; [reflexivity | cbv beta]).
    unfold intervalCleared. simpl.
    destruct (timerIntervalRef s) as [h|]; [|done]. by destruct (h =? 0)%Z.
  - reflexivity.
Qed.

Definition rearmed (handle : Z) (time p : Z) (s : State) : State :=
  setWindow
    {| now := now (window s);
       timers := alter (λ t', {| due := (time + p)%Z; callback := callback t';
                                 period := period t'; owner := owner t' |})
                       handle (timers (window s));
       nextHandle := nextHandle (window s) |} s.

Definition fired (handle : Z) (s : State) : State :=
  let w := window s in
  match timers w !! handle with
  | None => s
  | Some t =>
      let time := Z.max (now w) (due t) in
      match period t with
      | None =>
          ran (callback t) (owner t)
            (setWindow {| now := time; timers := delete handle (timers w);
                          nextHandle := nextHandle w |} s)
      | Some p =>
          rearmed handle time p
            (ran (callback t) (owner t)
               (setWindow {| now := time; timers := timers w;
                             nextHandle := nextHandle w |} s))
      end
  end.

Lemma fire_eq handle s : fire segments handle s = (Return tt, fired handle s).
Proof.
  unfold fire, fired. unfold bind at 1, gets at 1.
  destruct (timers (window s) !! handle) as [t|]; [|done].
  destruct (period t) as [p|].
  - unfold bind at 1, modify at 1. unfold bind at 1. by rewrite runCallback_eq.
  - unfold bind at 1, modify at 1. by rewrite runCallback_eq.
Qed.

Lemma step_Start s : step segments Start s = (startExperience segments s).2.
Proof. reflexivity. Qed.

Lemma step_Stop s : step segments Stop s = stopped s.
Proof. unfold step. simpl. by rewrite stopExperience_eq. Qed.

Lemma step_Fire handle s : step segments (Fire handle) s = fired handle s.
Proof. unfold step. simpl. by rewrite fire_eq. Qed.

End CallbackFacts.

(** * What each handler leaves alone *)

(** The three parts of the state: what the renderer sees, what the event
    loop holds for the page, and the audio session. *)
Definition view (s : State) := (visibleSegments s, activeSegment s, status s, elapsed s).
Definition schedule (s : State) := (window s, scheduleTimeoutsRef s, timerIntervalRef s).
Definition session (s : State) :=
  (audioContextRef s, masterGainRef s, ambientRef s, audio s).

Ltac split_cases :=
  repeat match goal with
         | |- context [match ?x with _ => _ end] => destruct x eqn:?; simpl
         end.

Lemma cleared_frame s :
  view (cleared s) = view s ∧ session (cleared s) = session s
  ∧ browser (cleared s) = browser s ∧ run (cleared s) = run s
  ∧ trace (cleared s) = trace s ∧ now (window (cleared s)) = now (window s)
  ∧ nextHandle (window (cleared s)) = nextHandle (window s).
Proof. unfold cleared, view, session. split_cases; done. Qed.

Lemma tornDown_frame s :
  view (tornDown s) = view s ∧ schedule (tornDown s) = schedule s
  ∧ browser (tornDown s) = browser s ∧ run (tornDown s) = run s
  ∧ trace (tornDown s) = trace s.
Proof.
  unfold tornDown, contextClosed, masterReleased, ambientStopped, view, schedule.
  split_cases; done.
Qed.

Lemma ambientStopped_refs s :
  ambientRef (ambientStopped s) = None
  ∧ masterGainRef (ambientStopped s) = masterGainRef s
  ∧ audioContextRef (ambientStopped s) = audioContextRef s.
Proof. unfold ambientStopped. by destruct (ambientRef s) eqn:E. Qed.

Lemma masterReleased_refs s :
  ambientRef (masterReleased s) = ambientRef s
  ∧ masterGainRef (masterReleased s) = None
  ∧ audioContextRef (masterReleased s) = audioContextRef s.
Proof. unfold masterReleased. by destruct (masterGainRef s) eqn:E. Qed.

Lemma contextClosed_refs s :
  ambientRef (contextClosed s) = ambientRef s
  ∧ masterGainRef (contextClosed s) = masterGainRef s
  ∧ audioContextRef (contextClosed s) = None.
Proof.
  unfold contextClosed. destruct (audioContextRef s) as [c|] eqn:E; [|done].
  by destruct (WebAudio.contexts (audio s) !! c) as [[]|].
Qed.

Lemma tornDown_refs s :
  audioContextRef (tornDown s) = None ∧ masterGainRef (tornDown s) = None
  ∧ ambientRef (tornDown s) = None.
Proof.
  unfold tornDown.
  destruct (contextClosed_refs (masterReleased (ambientStopped s))) as (-> & -> & ->).
  destruct (masterReleased_refs (ambientStopped s)) as (-> & -> & _).
  by destruct (ambientStopped_refs s) as (-> & _ & _).
Qed.

Lemma addNodes_frame added s :
  view (addNodes added s) = view s ∧ schedule (addNodes added s) = schedule s
  ∧ browser (addNodes added s) = browser s ∧ run (addNodes added s) = run s
  ∧ trace (addNodes added s) = trace s
  ∧ audioContextRef (addNodes added s) = audioContextRef s
  ∧ masterGainRef (addNodes added s) = masterGainRef s
  ∧ ambientRef (addNodes added s) = ambientRef s.
Proof. done. Qed.

(** * C9: [triggerEffects] without a backend or without effects *)

(** C9. When the effect list is [undefined] or empty, or when there is no
    audio context or no master gain (as after a teardown), [triggerEffects]
    returns normally and leaves the whole state, the audio heap included,
    exactly as it was. *)
Theorem triggerEffects_noop (effects : option (list StoryEffect)) (s : State) :
  effects = None ∨ effects = Some [] ∨ audioContextRef s = None ∨ masterGainRef s = None →
  triggerEffects effects s = (Return tt, s).
Proof.
  intros H. unfold triggerEffects.
  destruct effects as [[|e l]|]; try done.
  unfold bind, gets.
  destruct H as [H|[H|[H|H]]]; try done; rewrite H; [done|].
  by destruct (audioContextRef s).
Qed.

(** On every input it returns: no path of [triggerEffects] throws. *)
Lemma triggerEffects_returns effects s : (triggerEffects effects s).1 = Return tt.
Proof. destruct (triggerEffects_adds effects s) as (added & -> & _). done. Qed.

Lemma triggerEffects_noop_witness :
  triggerEffects (Some [heartbeat; chime])
    (step STORY_SEGMENTS Stop (step STORY_SEGMENTS Start (initial chrome false)))
  = (Return tt, step STORY_SEGMENTS Stop (step STORY_SEGMENTS Start (initial chrome false))).
Proof.
  apply triggerEffects_noop. right. right. left. vm_compute. reflexivity.
Defined.

(** * C1: starting without an audio backend *)

(** C1, as stated, fails: in a browser without the Web Audio API the first
    click on start throws the error, and the status it leaves is
    [playing], not [idle]. *)
Lemma start_unsupported_not_idle :
  (startExperience STORY_SEGMENTS (initial noAudio false)).1
    = Throw (JsError "Web Audio API is not supported in this browser.")
  ∧ status (step STORY_SEGMENTS Start (initial noAudio false)) ≠ idle.
Proof. split; [vm_compute; reflexivity | vm_compute; discriminate]. Qed.

(** C1, amended.  When the runtime has no audio capability, [startExperience]
    throws the error to its caller as an ordinary [Error] value; by then it
    has cancelled the schedule and reset the view, so no segment is visible,
    none is active, the elapsed time is 0 and no audio object was made, but
    the status is already [playing] and stays so.  A later [stopExperience]
    brings the page back to [idle]. *)
Theorem start_unsupported (segments : list StorySegment) (s : State) :
  hasWindow (browser s) = false
  ∨ (audioContextRef s = None ∧ audioConstructor (browser s) = false) →
  ∃ message,
    startExperience segments s = (Throw (JsError message), prepared s)
    ∧ view (prepared s) = ([], None, playing, 0%Z)
    ∧ session (prepared s) = session s
    ∧ scheduleTimeoutsRef (prepared s) = []
    ∧ (tracked s → timers (window (prepared s)) = ∅)
    ∧ status (step segments Stop (prepared s)) = idle.
Proof.
  intros H.
  destruct (cleared_frame (setRun (S (run s)) s)) as (Hv & Hs & Hb & _).
  assert (browser (prepared s) = browser s) as Hbr by exact Hb.
  assert (audioContextRef (prepared s) = audioContextRef s) as Hctx.
  { unfold session in Hs. simpl in *. congruence. }
  assert (∃ message, ensureAudioContext (prepared s)
                     = (Throw (JsError message), prepared s)) as [message Hthrow].
  { destruct (hasWindow (browser s)) eqn:Hw.
    - destruct H as [|[H1 H2]]; [done|]. eexists.
      apply ensureAudioContext_unsupported; congruence.
    - eexists. apply ensureAudioContext_server. congruence. }
  exists message. rewrite startExperience_eq, Hthrow.
  repeat split.
  - exact Hs.
  - apply (cleared_schedule (setRun (S (run s)) s)).
  - intros Ht. apply (cleared_empty (setRun (S (run s)) s)). exact Ht.
  - rewrite step_Stop. unfold stopped.
    destruct (tornDown_frame
      (setElapsed 0 (setTrace [] (setVisibleSegments []
         (setActiveSegment None (setStatus idle (cleared (prepared s)))))))) as (Hv' & _).
    unfold view in Hv'. simpl in Hv'. congruence.
Qed.

Lemma start_unsupported_witness :
  ∃ message,
    startExperience STORY_SEGMENTS (initial noAudio false)
      = (Throw (JsError message), prepared (initial noAudio false))
    ∧ view (prepared (initial noAudio false)) = ([], None, playing, 0%Z)
    ∧ session (prepared (initial noAudio false)) = session (initial noAudio false)
    ∧ scheduleTimeoutsRef (prepared (initial noAudio false)) = []
    ∧ (tracked (initial noAudio false)
       → timers (window (prepared (initial noAudio false))) = ∅)
    ∧ status (step STORY_SEGMENTS Stop (prepared (initial noAudio false))) = idle.
Proof.
  apply (start_unsupported STORY_SEGMENTS (initial noAudio false)).
  right. split; reflexivity.
Defined.

(** * The audio handlers stay inside the audio session *)





(** * C4 and C10: the schedule *)









Lemma armAll_frame segments start l s :
  view (armAll segments start l s) = view s
  ∧ session (armAll segments start l s) = session s
  ∧ browser (armAll segments start l s) = browser s
  ∧ run (armAll segments start l s) = run s
  ∧ trace (armAll segments start l s) = trace s
  ∧ timerIntervalRef (armAll segments start l s) = timerIntervalRef s
  ∧ now (window (armAll segments start l s)) = now (window s).
Proof.
  revert start s. induction l as [|x l IH]; intros start s; simpl; [done|].
  destruct (IH (S start) (if (start =? 0)%nat then s else armReveal segments x start s))
    as (-> & -> & -> & -> & -> & -> & ->).
  by destruct (start =? 0)%nat.
Qed.











(** *** The event loop left to itself stays within the reachable states *)








Lemma reachable_steps segments (l : list Action) s :
  reachable segments s → Forall (λ a, if a is Fire _ then False else True) l →
  reachable segments (steps segments l s).
Proof.
  revert s. induction l as [|a l IH]; intros s H Hl; simpl; [done|].
  inversion Hl as [|? ? Ha Hl']; subst. apply IH; [|done].
  apply reachable_step; [done|]. by destruct a.
Qed.

(** The page of the repository, started once in a capable browser. *)
Definition afterStart : State := step STORY_SEGMENTS Start (initial chrome false).


(** * C4: [clearSchedule] *)



(** Eight timers are armed there: seven reveals and the ticker. *)
Example afterStart_pending : size (timers (window afterStart)) = 8%nat.
Proof. vm_compute. reflexivity. Qed.

(** * C10: one run at a time *)



(** Seventy timer firings into the first run the second segment is on
    screen; a start at that point leaves eight timers, all of run 2. *)
Example restart_mid_run :
  visibleSegments (play STORY_SEGMENTS 70 afterStart) = ["segment-1"; "segment-2"]
  ∧ (owner <$> (map_to_list
       (timers (window (step STORY_SEGMENTS Start (play STORY_SEGMENTS 70 afterStart))))).*2)
    = replicate 8 2%nat.
Proof. vm_compute. done. Qed.

(** * C6 and C7: the ambient bed *)

(** Every source that sounds without end belongs to the ambient bed the
    page holds in [ambientRef]. *)
Definition bedInv (ns : list WebAudio.AudioNode) (amb : option AmbientNodes) : Prop :=
  ∀ n node, ns !! n = Some node → WebAudio.sounding node = true →
            ∃ a, amb = Some a ∧ n ∈ owned a.

Lemma bedInv_add ns amb added :
  bedInv ns amb → Forall quiet added → bedInv (ns ++ added) amb.
Proof.
  intros H Hq n node Hn Hs.
  apply lookup_app_Some in Hn as [Hn|[_ Hn]]; [by eapply H|].
  rewrite Forall_forall in Hq. unfold quiet in Hq.
  rewrite (Hq node) in Hs; [done|]. by eapply list_elem_of_lookup_2.
Qed.

Lemma bedInv_alter ns amb (f : WebAudio.AudioNode → WebAudio.AudioNode) k :
  (∀ node, WebAudio.sounding (f node) = WebAudio.sounding node) →
  bedInv ns amb → bedInv (alter f k ns) amb.
Proof.
  intros Hf H n node Hn Hs. destruct (decide (n = k)) as [->|Hne].
  - rewrite list_lookup_alter_eq in Hn.
    destruct (ns !! k) as [node0|] eqn:E; [|done]. simpl in Hn. simplify_eq.
    rewrite Hf in Hs. by eapply H.
  - rewrite list_lookup_alter_ne in Hn by done. by eapply H.
Qed.

Lemma bedInv_fresh ns c m :
  bedInv ns None →
  bedInv (ns ++ ambientBedNodes c m (length ns)) (Some (ambientBedRefs (length ns))).
Proof.
  intros H n node Hn Hs. exists (ambientBedRefs (length ns)). split; [done|].
  apply lookup_app_Some in Hn as [Hn|[Hge Hn]].
  - destruct (H n node Hn Hs) as (a & Ha & _). done.
  - unfold owned, ambientBedRefs. simpl.
    remember (n - length ns)%nat as k eqn:Hk.
    do 9 (destruct k as [|k]; [simpl in Hn; simplify_eq; simpl in Hs; try done;
                                set_solver by lia|]).
    done.
Qed.

Lemma bedInv_silenced g a :
  bedInv (WebAudio.nodes g) (Some a) →
  bedInv (WebAudio.nodes (foldl silence g (owned a))) None.
Proof.
  intros H n node' Hn Hs. exfalso.
  destruct (silence_all _ _ _ _ Hn) as (node & Hnode & Hin & Hout & Hq & _).
  destruct (decide (n ∈ owned a)) as [Hyes|Hno].
  - destruct (Hin Hyes) as [_ Hsil]. congruence.
  - rewrite (Hout Hno) in Hs. destruct (H n node Hnode Hs) as (a' & [= <-] & Hmem). done.
Qed.

Lemma bedInv_none_quiet ns : bedInv ns None ↔ Forall quiet ns.
Proof.
  unfold bedInv, quiet. rewrite Forall_lookup. split.
  - intros H n node Hn. destruct (WebAudio.sounding node) eqn:E; [|done].
    destruct (H n node Hn E) as (a & Ha & _). done.
  - intros H n node Hn Hs. rewrite (H n node Hn) in Hs. done.
Qed.

Record AudioInv (s : State) : Prop := {
  inv_bed : bedInv (WebAudio.nodes (audio s)) (ambientRef s);
  inv_master : is_Some (audioContextRef s) → is_Some (masterGainRef s);
  inv_window : is_Some (audioContextRef s) → hasWindow (browser s) = true;
  inv_open : ∀ c, audioContextRef s = Some c →
             WebAudio.contexts (audio s) !! c = Some WebAudio.running
             ∨ WebAudio.contexts (audio s) !! c = Some WebAudio.suspended
}.

Lemma audioInv_ext s s' :
  session s' = session s → browser s' = browser s → AudioInv s → AudioInv s'.
Proof.
  unfold session. intros [= H1 H2 H3 H4] H5 [G1 G2 G3 G4].
  split; rewrite ?H1, ?H2, ?H3, ?H4, ?H5; done.
Qed.

Lemma audioInv_addNodes added s : Forall quiet added → AudioInv s → AudioInv (addNodes added s).
Proof.
  intros Hq [G1 G2 G3 G4]. split; simpl; try done. by apply bedInv_add.
Qed.

Lemma audioInv_ensure s : AudioInv s → AudioInv (ensureAudioContext s).2.
Proof.
  intros H. pose proof H as [G1 G2 G3 G4].
  destruct (hasWindow (browser s)) eqn:Hw.
  - destruct (audioContextRef s) as [c|] eqn:Hc.
    + rewrite (ensureAudioContext_reuse s c) by done. simpl. unfold sessionResumed.
      destruct (WebAudio.contexts (audio s) !! c) as [[]|] eqn:E; try done.
      split; simpl; rewrite ?Hc; try done.
      intros c' [= <-]. left. rewrite list_lookup_insert_eq; [done|].
      by eapply lookup_lt_Some.
    + destruct (audioConstructor (browser s)) eqn:Ha.
      * rewrite ensureAudioContext_new by done. simpl.
        split; simpl; [|by eexists|done|].
        -- apply bedInv_add; [done|]. by repeat constructor.
        -- intros c [= <-]. left. by rewrite lookup_fresh.
      * rewrite ensureAudioContext_unsupported by done. done.
  - rewrite ensureAudioContext_server by done. done.
Qed.

Lemma audioInv_begin c m s : AudioInv s → AudioInv (beginAmbientBed c m s).2.
Proof.
  intros H. pose proof H as [G1 G2 G3 G4].
  destruct (ambientRef s) as [a|] eqn:Ha.
  - rewrite beginAmbientBed_running by eauto. simpl. split; by rewrite ?Ha.
  - destruct m as [m|].
    + rewrite beginAmbientBed_fresh by done. simpl.
      split; simpl; try done. by apply bedInv_fresh.
    + rewrite beginAmbientBed_null by done. simpl.
      apply audioInv_addNodes; [apply orphans_quiet|]. split; by rewrite ?Ha.
Qed.

Lemma audioInv_trigger effects s : AudioInv s → AudioInv (triggerEffects effects s).2.
Proof.
  intros H. destruct (triggerEffects_adds effects s) as (added & -> & Hq).
  by apply audioInv_addNodes.
Qed.

Lemma sounding_setOutputs o node :
  WebAudio.sounding (WebAudio.setOutputs o node) = WebAudio.sounding node.
Proof. done. Qed.

Lemma audioInv_tornDown s : AudioInv s → AudioInv (tornDown s).
Proof.
  intros [G1 _ _ _].
  destruct (tornDown_refs s) as (Hc & Hm & Ha).
  split; rewrite ?Hc, ?Hm, ?Ha; try (by intros []); try done.
  assert (bedInv (WebAudio.nodes (audio (ambientStopped s))) None) as H1.
  { unfold ambientStopped. destruct (ambientRef s) as [a|]; [|exact G1].
    by apply bedInv_silenced. }
  assert (bedInv (WebAudio.nodes (audio (masterReleased (ambientStopped s)))) None) as H2.
  { unfold masterReleased. destruct (masterGainRef (ambientStopped s)); [|exact H1].
    apply (bedInv_alter _ None); [|exact H1]. intros node. apply sounding_setOutputs. }
  unfold tornDown, contextClosed.
  destruct (audioContextRef (masterReleased (ambientStopped s))) as [c|]; [|exact H2].
  destruct (WebAudio.contexts (audio (masterReleased (ambientStopped s))) !! c)
    as [[]|]; exact H2.
Qed.

Lemma audioInv_start segments s : AudioInv s → AudioInv (step segments Start s).
Proof.
  intros H. rewrite step_Start, startExperience_eq.
  assert (AudioInv (prepared s)) as Hp.
  { apply (audioInv_ext s); [|apply (cleared_frame (setRun (S (run s)) s))|done].
    apply (cleared_frame (setRun (S (run s)) s)). }
  pose proof (audioInv_ensure _ Hp) as H2.
  destruct (ensureAudioContext (prepared s)) as [[[c m]|e] s2]; simpl in *; [|done].
  pose proof (audioInv_begin c m _ H2) as H3.
  destruct (beginAmbientBed c m s2) as [[[]|e] s3]; simpl in *; [|done].
  unfold launch. destruct (segments !! 0%nat) as [first|]; simpl; [|done].
  unfold scheduled.
  eapply audioInv_ext; [apply armAll_frame|apply armAll_frame|].
  eapply (audioInv_ext (triggerEffects _ _).2); [done|done|].
  apply audioInv_trigger. by apply (audioInv_ext s3).
Qed.

Lemma ran_session segments cb o s :
  ∃ added, Forall quiet added
    ∧ session (ran segments cb o s) = session (addNodes added s)
    ∧ browser (ran segments cb o s) = browser s.
Proof.
  destruct cb as [segment index| |startTime]; simpl.
  - destruct (triggerEffects_adds (effects segment) (revealedBy segment s))
      as (added & -> & Hq).
    exists added. split; [done|]. by destruct (isLast segments index).
  - exists []. rewrite addNodes_nil. split; [done|].
    unfold intervalCleared. simpl. split_cases; done.
  - exists []. by rewrite addNodes_nil.
Qed.

Lemma audioInv_fired segments handle s : AudioInv s → AudioInv (fired segments handle s).
Proof.
  intros H. unfold fired.
  destruct (timers (window s) !! handle) as [t|]; [|done].
  destruct (period t) as [p|].
  - set (s0 := setWindow _ s).
    destruct (ran_session segments (callback t) (owner t) s0) as (added & Hq & Hs & Hb).
    eapply (audioInv_ext (addNodes added s)); [exact Hs|exact Hb|].
    by apply audioInv_addNodes.
  - set (s0 := setWindow _ s).
    destruct (ran_session segments (callback t) (owner t) s0) as (added & Hq & Hs & Hb).
    eapply (audioInv_ext (addNodes added s)); [exact Hs|exact Hb|].
    by apply audioInv_addNodes.
Qed.

Lemma audioInv_step segments a s : AudioInv s → AudioInv (step segments a s).
Proof.
  intros H. destruct a as [| |handle|d|c|n].
  - by apply audioInv_start.
  - rewrite step_Stop. unfold stopped. apply audioInv_tornDown.
    eapply audioInv_ext; [| |exact H]; apply (cleared_frame s).
  - rewrite step_Fire. by apply audioInv_fired.
  - by apply (audioInv_ext s).
  - unfold step. simpl. unfold onAudio, zoom. simpl.
    destruct H as [G1 G2 G3 G4].
    destruct (WebAudio.contexts (audio s) !! c) as [[]|] eqn:E; try done.
    split; simpl; try done.
    intros c' Hc'. destruct (decide (c' = c)) as [->|Hne].
    + right. rewrite list_lookup_insert_eq; [done|]. by eapply lookup_lt_Some.
    + rewrite list_lookup_insert_ne by done. by apply G4.
  - unfold step. simpl. unfold bind, gets.
    destruct (WebAudio.nodes (audio s) !! n) as [node|]; [|done].
    destruct (WebAudio.stopAfter node), (WebAudio.onended node),
      (WebAudio.started node); try done.
    destruct H as [G1 G2 G3 G4]. split; simpl; try done.
    apply bedInv_alter; [|done]. intros node'. apply sounding_setOutputs.
Qed.

Lemma reachable_audioInv segments s : reachable segments s → AudioInv s.
Proof.
  induction 1 as [b strict|s a _ IH _].
  - split; simpl; try done; by intros [].
  - by apply audioInv_step.
Qed.

(** C6. While an ambient bed is running, [beginAmbientBed] returns at once
    and changes nothing: the state, and with it the audio heap and its node
    count, is the same before and after.  And in every state the page can
    reach, each source that sounds without end is one of the sources of the
    single bed held in [ambientRef]: there is never a second bed alive. *)
Theorem beginAmbientBed_single_instance (segments : list StorySegment) (s : State) :
  reachable segments s →
  (∀ c m, is_Some (ambientRef s) → beginAmbientBed c m s = (Return tt, s))
  ∧ (∀ n node, WebAudio.nodes (audio s) !! n = Some node →
       WebAudio.sounding node = true →
       ∃ a, ambientRef s = Some a ∧ n ∈ owned a).
Proof.
  intros Hr. split.
  - intros c m Ha. by apply beginAmbientBed_running.
  - apply (inv_bed s). by apply (reachable_audioInv segments).
Qed.

Lemma beginAmbientBed_single_instance_witness :
  (∀ c m, is_Some (ambientRef afterStart) →
     beginAmbientBed c m afterStart = (Return tt, afterStart))
  ∧ (∀ n node, WebAudio.nodes (audio afterStart) !! n = Some node →
       WebAudio.sounding node = true →
       ∃ a, ambientRef afterStart = Some a ∧ n ∈ owned a).
Proof.
  apply (beginAmbientBed_single_instance STORY_SEGMENTS afterStart).
  apply reachable_step; [apply reachable_initial|exact I].
Defined.

(** A second start while the first run plays adds the voice of segment 1
    again, and no second bed: the same four sources sound. *)
Example restart_keeps_one_bed :
  ambientRef (step STORY_SEGMENTS Start afterStart) = ambientRef afterStart
  ∧ length (filter (λ n, WebAudio.sounding n = true)
              (WebAudio.nodes (audio (step STORY_SEGMENTS Start afterStart)))) = 4%nat.
Proof. vm_compute. done. Qed.

(** C7. [stopAmbient] never throws, whatever state the nodes of the bed are
    in (started or not, already stopped or not, on an engine that raises on a
    second [stop()] or not): the error of one [stop()] is caught on the spot
    and the node is disconnected all the same, and so are the nodes after it.
    Afterwards [ambientRef] is empty, every node the bed owned is
    disconnected and silent, no other node was touched, and a following
    [beginAmbientBed] builds a new bed out of new nodes, all four of its
    sources sounding. *)
Theorem stopAmbient_disposes_all (s : State) (a : AmbientNodes) :
  ambientRef s = Some a →
  stopAmbient s = (Return tt, ambientStopped s)
  ∧ ambientRef (ambientStopped s) = None
  ∧ (∀ n node, n ∈ owned a →
       WebAudio.nodes (audio (ambientStopped s)) !! n = Some node → silent node)
  ∧ (∀ n node, n ∉ owned a →
       WebAudio.nodes (audio (ambientStopped s)) !! n = Some node →
       WebAudio.nodes (audio s) !! n = Some node)
  ∧ (∀ c m, ∃ s',
       beginAmbientBed c (Some m) (ambientStopped s) = (Return tt, s')
       ∧ ambientRef s' = Some (ambientBedRefs (length (WebAudio.nodes (audio s))))
       ∧ ∀ n, n ∈ owned (ambientBedRefs (length (WebAudio.nodes (audio s)))) →
           (length (WebAudio.nodes (audio s)) ≤ n)%nat
           ∧ ∃ node, WebAudio.nodes (audio s') !! n = Some node
                     ∧ WebAudio.sounding node = true).
Proof.
  intros Ha.
  assert (ambientStopped s
          = setAmbientRef None (setAudio (foldl silence (audio s) (owned a)) s)) as Hs.
  { unfold ambientStopped. by rewrite Ha. }
  destruct (silence_all_frame (owned a) (audio s)) as (_ & _ & Hlen).
  split_and!.
  - apply stopAmbient_stopped.
  - by rewrite Hs.
  - intros n node Hin Hn. rewrite Hs in Hn. simpl in Hn.
    destruct (silence_all _ _ _ _ Hn) as (node0 & _ & Hsil & _). by apply Hsil.
  - intros n node Hnot Hn. rewrite Hs in Hn. simpl in Hn.
    destruct (silence_all _ _ _ _ Hn) as (node0 & Hn0 & _ & Hsame & _).
    by rewrite (Hsame Hnot).
  - intros c m. eexists. split; [apply beginAmbientBed_fresh; by rewrite Hs|].
    rewrite Hs. simpl. rewrite Hlen. split; [done|].
    remember (WebAudio.nodes (foldl silence (audio s) (owned a))) as old eqn:Hold.
    rewrite <- Hlen. clear Hold Hlen.
    unfold owned, ambientBedRefs. simpl.
    intros n Hn. rewrite !elem_of_cons in Hn.
    destruct Hn as [->|[->|[->|[->|Hn]]]]; [| | | |by apply elem_of_nil in Hn].
    + split; [lia|]. rewrite lookup_fresh. by eexists.
    + split; [lia|]. rewrite lookup_fresh_plus. by eexists.
    + split; [lia|]. rewrite lookup_fresh_plus. by eexists.
    + split; [lia|]. rewrite lookup_fresh_plus. by eexists.
Qed.

(** A bed on a strict engine whose first oscillator was stopped behind the
    page's back: its [stop()] now raises. *)
Definition bedWithStoppedNode : State :=
  let s := step STORY_SEGMENTS Start (initial chrome true) in
  setAudio (WebAudio.stop 1 0 (audio s)).2 s.

Example stopped_node_raises :
  (WebAudio.stop 1 0 (audio bedWithStoppedNode)).1 = Throw InvalidStateError.
Proof. vm_compute. reflexivity. Qed.

Lemma stopAmbient_disposes_all_witness :
  let s := bedWithStoppedNode in
  let a := {| oscillators := [1; 3]; tremolo := Some 5; noise := Some 7 |}%nat in
  stopAmbient s = (Return tt, ambientStopped s)
  ∧ ambientRef (ambientStopped s) = None
  ∧ (∀ n node, n ∈ owned a →
       WebAudio.nodes (audio (ambientStopped s)) !! n = Some node → silent node)
  ∧ (∀ n node, n ∉ owned a →
       WebAudio.nodes (audio (ambientStopped s)) !! n = Some node →
       WebAudio.nodes (audio s) !! n = Some node)
  ∧ (∀ c m, ∃ s',
       beginAmbientBed c (Some m) (ambientStopped s) = (Return tt, s')
       ∧ ambientRef s' = Some (ambientBedRefs (length (WebAudio.nodes (audio s))))
       ∧ ∀ n, n ∈ owned (ambientBedRefs (length (WebAudio.nodes (audio s)))) →
           (length (WebAudio.nodes (audio s)) ≤ n)%nat
           ∧ ∃ node, WebAudio.nodes (audio s') !! n = Some node
                     ∧ WebAudio.sounding node = true).
Proof.
  apply (stopAmbient_disposes_all bedWithStoppedNode
           {| oscillators := [1; 3]; tremolo := Some 5; noise := Some 7 |}%nat).
  vm_compute. reflexivity.
Defined.

(** * C2 and C8: what the renderer is shown, and when *)

















(** The second segment: revealed, then triggered, both at 7500 ms. *)
Example second_segment_trace :
  trace (play STORY_SEGMENTS 70 afterStart)
  = [(7500%Z, Triggered "segment-2" (Some [whisper]));
     (7500%Z, Revealed "segment-2");
     (0%Z, Revealed "segment-1");
     (0%Z, Triggered "segment-1" (Some [heartbeat]))].
Proof. vm_compute. reflexivity. Qed.



(** The whole run of the page: after the last timer all eight segments are
    visible, none is active, the status is [finished], at 61200 ms. *)
Definition afterRun : State := play STORY_SEGMENTS 600 afterStart.

Example afterRun_finished :
  visibleSegments afterRun = id <$> STORY_SEGMENTS
  ∧ activeSegment afterRun = None
  ∧ status afterRun = finished
  ∧ now (window afterRun) = TOTAL_DURATION
  ∧ timers (window afterRun) = ∅.
Proof. vm_compute. done. Qed.


(** * C3: when the run finishes *)

Lemma sumDurations_from (a : Z) (l : list StorySegment) :
  foldl (λ sum item, (sum + duration item)%Z) a l = (a + sumDurations l)%Z.
Proof.
  unfold sumDurations. revert a. induction l as [|x l IH]; intros a; simpl; [lia|].
  rewrite (IH (a + duration x)%Z), (IH (0 + duration x)%Z). lia.
Qed.





Section Arming.

Variable segments : list StorySegment.



End Arming.
















(** The page's own timeline: the finished callback is armed by the eighth
    segment at 53000 ms, for 61200 ms. *)
Example story_finish_armed :
  TOTAL_DURATION = 61200%Z
  ∧ (λ t, (due t, callback t)) <$> timers (window (play STORY_SEGMENTS 448 afterStart)) !! 9%Z
    = Some (61200%Z, FinishedCb)
  ∧ now (window (play STORY_SEGMENTS 448 afterStart)) = 53000%Z.
Proof. vm_compute. done. Qed.

(** * C5: replay *)



















Section ScheduleFacts.

Variable segments : list StorySegment.




End ScheduleFacts.










(** *** What a reset does to the context, and a start after it *)











